(** * Postcode boundary resolution: hierarchy generator, candidate scorer and
    resolution orchestrator of the Nominatim based [geoService].

    The development embeds [getPostcodesToTry], [scoreResult],
    [searchNominatim] and [fetchPostcodeBoundary] as they are written in the
    revised service (User-Agent 1.4), and the earlier revision of the
    hierarchy generator and scorer (User-Agent 1.3) in [Module Legacy], with
    its selection in [Module LegacySearch].  [Module App] holds the search
    handler of the component that calls the service, and
    [Module GeoService] the service that reads boundary files instead of
    searching.

    Modelling conventions.
    - A JavaScript string is a [string] of 8-bit characters read as ASCII:
      [toUpperCase] maps a-z to A-Z, [trim] strips TAB, LF, VT, FF, CR and
      SPACE, [\d] is 0-9 and [[A-Z]] is A-Z.
    - A JavaScript number is an exact rational ([Q]); an absent [importance]
      is [None].
    - [fetch] and [delay] are the two effects of the orchestrator; they are
      threaded through a state-and-exception monad whose state carries the
      collaborator's own state and the trace of effects issued so far.
      Console output is not part of the model. *)

From Stdlib Require Import String Ascii List Arith Lia Bool QArith Lqa Sorted
  Permutation DecimalString.
Import ListNotations.

Local Open Scope string_scope.
Local Open Scope list_scope.
Local Open Scope nat_scope.

(** ** JavaScript string primitives used by the service *)

Module Js.

Definition code (c : ascii) : nat := nat_of_ascii c.

Definition in_range (lo hi : nat) (c : ascii) : bool :=
  (lo <=? code c) && (code c <=? hi).

(** [\d] *)
Definition is_digit : ascii -> bool := in_range 48 57.
(** [[A-Z]] *)
Definition is_upper : ascii -> bool := in_range 65 90.
Definition is_lower : ascii -> bool := in_range 97 122.
Definition is_space (c : ascii) : bool := code c =? 32.
(** The characters [String.prototype.trim] strips, among ASCII. *)
Definition is_ws (c : ascii) : bool := in_range 9 13 c || is_space c.

Definition upper_char (c : ascii) : ascii :=
  if is_lower c then ascii_of_nat (code c - 32) else c.

Fixpoint toUpperCase (s : string) : string :=
  match s with
  | EmptyString => EmptyString
  | String c r => String (upper_char c) (toUpperCase r)
  end.

Fixpoint drop_while (p : ascii -> bool) (s : string) : string :=
  match s with
  | EmptyString => EmptyString
  | String c r => if p c then drop_while p r else s
  end.

(** Removes the maximal suffix whose characters all satisfy [p]. *)
Fixpoint drop_while_end (p : ascii -> bool) (s : string) : string :=
  match s with
  | EmptyString => EmptyString
  | String c r =>
      match drop_while_end p r with
      | EmptyString => if p c then EmptyString else String c EmptyString
      | r' => String c r'
      end
  end.

Definition trim (s : string) : string :=
  drop_while_end is_ws (drop_while is_ws s).

(** [s.replace(/ +/g, ' ')]: [after_space] tells that the previous
    character was a space of the run being replaced. *)
Fixpoint collapse_spaces (after_space : bool) (s : string) : string :=
  match s with
  | EmptyString => EmptyString
  | String c r =>
      if is_space c
      then if after_space then collapse_spaces true r
           else String " " (collapse_spaces true r)
      else String c (collapse_spaces false r)
  end.

Definition replace_space_runs (s : string) : string :=
  collapse_spaces false s.

Fixpoint exists_char (p : ascii -> bool) (s : string) : bool :=
  match s with
  | EmptyString => false
  | String c r => p c || exists_char p r
  end.

(** [s.includes(' ')] *)
Definition includes_space (s : string) : bool := exists_char is_space s.

(** [s.split(' ')[0]]: the part before the first space. *)
Fixpoint split_space_0 (s : string) : string :=
  match s with
  | EmptyString => EmptyString
  | String c r => if is_space c then EmptyString else String c (split_space_0 r)
  end.

Fixpoint last_char (s : string) : option ascii :=
  match s with
  | EmptyString => None
  | String c EmptyString => Some c
  | String _ r => last_char r
  end.

(** [/p$/.test(s)] for a one-character class [p]. *)
Definition ends_with_class (p : ascii -> bool) (s : string) : bool :=
  match last_char s with
  | Some c => p c
  | None => false
  end.

(** [s.slice(0, -1)] *)
Fixpoint slice_0_m1 (s : string) : string :=
  match s with
  | EmptyString => EmptyString
  | String c EmptyString => EmptyString
  | String c r => String c (slice_0_m1 r)
  end.

(** [s.replace(/\d+$/, '')] *)
Definition strip_trailing_digits (s : string) : string :=
  drop_while_end is_digit s.

(** [s.startsWith(p)] *)
Definition startsWith (s p : string) : bool := String.prefix p s.

(** [s.includes(sub)] *)
Fixpoint includes (s sub : string) : bool :=
  String.prefix sub s ||
  match s with
  | EmptyString => false
  | String _ r => includes r sub
  end.

(** [parts.join(sep)] *)
Fixpoint join (sep : string) (parts : list string) : string :=
  match parts with
  | [] => EmptyString
  | [p] => p
  | p :: rest => (p ++ sep ++ join sep rest)%string
  end.

(** [[...new Set(xs)]]: insertion order, a value already present is
    not added again. *)
Definition set_add (seen : list string) (x : string) : list string :=
  if existsb (String.eqb x) seen then seen else seen ++ [x].

Definition set_spread (xs : list string) : list string :=
  fold_left set_add xs [].

End Js.

(** ** Hierarchy generator *)

Definition cleaned (postcode : string) : string :=
  Js.replace_space_runs (Js.toUpperCase (Js.trim postcode)).

(** The [while (current.length > 1)] loop of [getPostcodesToTry]; [None]
    when the iteration budget runs out before the loop exits. *)
Fixpoint while_loop (fuel : nat) (current : string) (hierarchy : list string)
  : option (list string) :=
  match fuel with
  | O => None
  | S fuel' =>
      if 1 <? String.length current then
        if Js.ends_with_class Js.is_upper current
           && Js.exists_char Js.is_digit current
        then
          let current' := Js.slice_0_m1 current in
          while_loop fuel' current' (hierarchy ++ [current'])
        else if Js.ends_with_class Js.is_digit current then
          let area := Js.strip_trailing_digits current in
          if (0 <? String.length area) && negb (String.eqb area current)
          then while_loop fuel' area (hierarchy ++ [area])
          else Some hierarchy
        else Some hierarchy
      else Some hierarchy
  end.

Definition getPostcodesToTry_fuel (fuel : nat) (postcode : string)
  : option (list string) :=
  let cleaned := cleaned postcode in
  let hierarchy := if Js.includes_space cleaned then [cleaned] else [] in
  let current := Js.split_space_0 cleaned in
  let hierarchy := hierarchy ++ [current] in
  match while_loop fuel current hierarchy with
  | Some hierarchy => Some (Js.set_spread hierarchy)
  | None => None
  end.

(** One unit of budget per character of the input, plus one for the final
    test of the loop condition. *)
Definition getPostcodesToTry (postcode : string) : list string :=
  match getPostcodesToTry_fuel (S (String.length postcode)) postcode with
  | Some hierarchy => hierarchy
  | None => []
  end.

(** ** Candidate scorer *)

Record Address := { postcode : option string }.

(** The fields of a Nominatim record the service reads.  [geojson] holds
    the [type] tag of the geometry; its coordinates are opaque here. *)
Record NominatimResult := {
  place_id : Z;
  display_name : string;
  class : string;
  type : string;
  importance : option Q;
  geojson : option string;
  address : option Address
}.

(** [result.address?.postcode?.toUpperCase().startsWith(queryUpper)],
    an undefined value being falsy. *)
Definition address_postcode_startsWith (result : NominatimResult)
  (queryUpper : string) : bool :=
  match address result with
  | Some a =>
      match postcode a with
      | Some p => Js.startsWith (Js.toUpperCase p) queryUpper
      | None => false
      end
  | None => false
  end.

(** [result.importance || 0] *)
Definition importance_or_0 (result : NominatimResult) : Q :=
  match importance result with
  | Some q => q
  | None => 0%Q
  end.

Definition penalized_types : list string :=
  ["administrative"; "county"; "city"; "suburb"; "borough"].

Definition label_starts_with_query (result : NominatimResult) (query : string)
  : bool :=
  let displayName := Js.toUpperCase (display_name result) in
  let queryUpper := Js.toUpperCase query in
  Js.startsWith displayName (queryUpper ++ ",")%string
  || Js.startsWith displayName (queryUpper ++ " ")%string.

Definition scoreResult (result : NominatimResult) (query : string) : Q :=
  let score := 0%Q in
  let displayName := Js.toUpperCase (display_name result) in
  let queryUpper := Js.toUpperCase query in
  let score :=
    if (class result =? "boundary")%string && (type result =? "postal_code")%string
    then (score + 100)%Q else score in
  let score :=
    if label_starts_with_query result query
    then (score + 80)%Q else score in
  let score :=
    if address_postcode_startsWith result queryUpper then (score + 50)%Q
    else if Js.includes displayName queryUpper then (score + 20)%Q
    else score in
  let score := (score + importance_or_0 result * 10)%Q in
  let score :=
    if (class result =? "boundary")%string
       && existsb (String.eqb (type result)) penalized_types
    then (score - 60)%Q else score in
  score.

Definition MINIMUM_CONFIDENCE_SCORE : Q := 50%Q.

(** ** Selection of the best candidate of one response *)

Record Scored := { result : NominatimResult; score : Q }.

(** [a] is placed after [b] by the comparator [(a, b) => b.score - a.score]
    exactly when [a.score < b.score]. *)
Definition score_lt (a b : Scored) : bool := negb (Qle_bool (score b) (score a)).

Fixpoint insert_desc (x : Scored) (l : list Scored) : list Scored :=
  match l with
  | [] => [x]
  | y :: l' => if score_lt x y then y :: insert_desc x l' else x :: y :: l'
  end.

(** [Array.prototype.sort] is stable: equal scores keep their input order. *)
Definition sort_desc (l : list Scored) : list Scored :=
  fold_right insert_desc [] l.

Definition has_shape (r : NominatimResult) : bool :=
  match geojson r with
  | Some t => (t =? "Polygon")%string || (t =? "MultiPolygon")%string
  | None => false
  end.

Definition scoredResults (data : list NominatimResult) (query : string)
  : list Scored :=
  sort_desc
    (map (fun r => {| result := r; score := scoreResult r query |})
         (filter has_shape data)).

(** What [searchNominatim] makes of the parsed body of an OK response. *)
Definition pick (data : list NominatimResult) (query : string)
  : option NominatimResult :=
  match scoredResults data query with
  | bestMatch :: _ =>
      if Qle_bool MINIMUM_CONFIDENCE_SCORE (score bestMatch)
      then Some (result bestMatch) else None
  | [] => None
  end.

(** ** Request encoding *)

Definition is_unreserved (c : ascii) : bool :=
  Js.is_upper c || Js.is_lower c || Js.is_digit c
  || existsb (Ascii.eqb c) (list_ascii_of_string "-_.!~*'()").

Definition hex_digit (n : nat) : ascii :=
  if n <? 10 then ascii_of_nat (48 + n) else ascii_of_nat (55 + n).

Fixpoint encodeURIComponent (s : string) : string :=
  match s with
  | EmptyString => EmptyString
  | String c r =>
      if is_unreserved c then String c (encodeURIComponent r)
      else String "%" (String (hex_digit (Js.code c / 16))
                         (String (hex_digit (Js.code c mod 16))
                            (encodeURIComponent r)))
  end.

Definition apiUrl (postcode : string) : string :=
  ("https://nominatim.openstreetmap.org/search?q="
   ++ encodeURIComponent (postcode ++ ", United Kingdom")
   ++ "&format=json&polygon_geojson=1&limit=10&addressdetails=1")%string.

(** ** Effects: the search collaborator and the timer *)

(** What [response.json()] yields: a rejection on a malformed body, [null],
    or the array of records. *)
Inductive Body :=
| BodyMalformed
| BodyNull
| BodyResults (data : list NominatimResult).

(** What one call of [fetch] does: the promise rejects (no HTTP response was
    obtained), or it resolves to a response with its [ok] flag and status. *)
Inductive FetchOutcome :=
| Rejected (reason : string)
| Responded (ok : bool) (status : nat) (body : Body).

Inductive Event :=
| EvFetch (url : string)
| EvDelay (ms : nat).

Inductive Thrown :=
| Error (message : string)
| FetchRejection (reason : string)
| JsonRejection.

Inductive Outcome (A : Type) :=
| Ok (a : A)
| Throw (e : Thrown).
Arguments Ok {A} a.
Arguments Throw {A} e.

Definition dquote : string := String (ascii_of_nat 34) EmptyString.

Definition no_boundary_message (postcodesToTry : list string) : string :=
  ("No geographical boundary data found for this postcode. We tried searching for "
   ++ dquote ++ Js.join (dquote ++ ", " ++ dquote) postcodesToTry ++ dquote
   ++ " but found no matching areas.")%string.

Section Orchestrator.

(** The search collaborator: any state space and any transition from a
    state and a requested URL to an outcome and a next state. *)
Variable State : Type.
Variable collaborator : State -> string -> FetchOutcome * State.

Record World := { collab : State; trace : list Event }.

Definition M (A : Type) : Type := World -> Outcome A * World.

Definition ret {A} (a : A) : M A := fun w => (Ok a, w).
Definition throw {A} (e : Thrown) : M A := fun w => (Throw e, w).
Definition bind {A B} (m : M A) (k : A -> M B) : M B :=
  fun w =>
    match m w with
    | (Ok a, w') => k a w'
    | (Throw e, w') => (Throw e, w')
    end.

Notation "x <- m ;; k" := (bind m (fun x => k))
  (at level 61, m at next level, right associativity).

Definition log (e : Event) (w : World) (s : State) : World :=
  {| collab := s; trace := trace w ++ [e] |}.

(** [await fetch(url, ...)] *)
Definition fetch (url : string) : M (bool * nat * Body) :=
  fun w =>
    let (o, s) := collaborator (collab w) url in
    match o with
    | Rejected reason => (Throw (FetchRejection reason), log (EvFetch url) w s)
    | Responded ok status body => (Ok (ok, status, body), log (EvFetch url) w s)
    end.

(** [await response.json()] *)
Definition json (body : Body) : M (option (list NominatimResult)) :=
  match body with
  | BodyMalformed => throw JsonRejection
  | BodyNull => ret None
  | BodyResults data => ret (Some data)
  end.

(** [await delay(ms)] *)
Definition delay (ms : nat) : M unit :=
  fun w => (Ok tt, log (EvDelay ms) w (collab w)).

Definition searchNominatim (postcode : string) : M (option NominatimResult) :=
  response <- fetch (apiUrl postcode) ;;
  let '(ok, status, body) := response in
  if negb ok then ret None
  else
    data <- json body ;;
    match data with
    | None => ret None
    | Some data => ret (pick data postcode)
    end.

(** The [for] loop of [fetchPostcodeBoundary] over the fragments that are
    left; [i < postcodesToTry.length - 1] holds exactly when a fragment
    remains after the current one.  [Some r] is the [return] from inside
    the loop, [None] the fall-through. *)
Fixpoint for_loop (remaining : list string) : M (option NominatimResult) :=
  match remaining with
  | [] => ret None
  | pc :: rest =>
      found <- searchNominatim pc ;;
      match found with
      | Some r => ret (Some r)
      | None =>
          _ <- (match rest with [] => ret tt | _ :: _ => delay 1000 end) ;;
          for_loop rest
      end
  end.

Definition fetchPostcodeBoundary (postcode : string) : M NominatimResult :=
  if (String.length postcode =? 0) || (String.length (Js.trim postcode) =? 0)
  then throw (Error "Please enter a postcode.")
  else
    let postcodesToTry := getPostcodesToTry postcode in
    found <- for_loop postcodesToTry ;;
    match found with
    | Some r => ret r
    | None => throw (Error (no_boundary_message postcodesToTry))
    end.

(** The world after every fragment of [pre] has been searched without an
    accepted candidate, and the pause after each has been taken; [None]
    if one of these searches accepts or throws. *)
Fixpoint rejected_prefix (pre : list string) (w : World)
  : option World :=
  match pre with
  | [] => Some w
  | pc :: rest =>
      match searchNominatim pc w with
      | (Ok None, w') => rejected_prefix rest (log (EvDelay 1000) w' (collab w'))
      | _ => None
      end
  end.

(** How [fetchPostcodeBoundary] goes on once the fragments before [post]
    are done without an accepted candidate. *)
Definition continue_with (postcodesToTry post : list string) (w : World)
  : Outcome NominatimResult * World :=
  match post with
  | [] => (Throw (Error (no_boundary_message postcodesToTry)), w)
  | _ :: _ =>
      bind (for_loop post)
           (fun found =>
              match found with
              | Some r => ret r
              | None => throw (Error (no_boundary_message postcodesToTry))
              end)
           (log (EvDelay 1000) w (collab w))
  end.

End Orchestrator.

Arguments collab {State} w.
Arguments trace {State} w.
Arguments Build_World {State} collab trace.
Arguments ret {State A} a w.
Arguments throw {State A} e w.
Arguments bind {State A B} m k w.
Arguments log {State} e w s.
Arguments delay {State} ms w.
Arguments fetch {State} collaborator url w.
Arguments searchNominatim {State} collaborator postcode w.
Arguments for_loop {State} collaborator remaining w.
Arguments fetchPostcodeBoundary {State} collaborator postcode w.
Arguments rejected_prefix {State} collaborator pre w.
Arguments continue_with {State} collaborator postcodesToTry post w.

(** The input passes the guard of [fetchPostcodeBoundary]. *)
Definition entered (postcode : string) : bool :=
  negb ((String.length postcode =? 0) || (String.length (Js.trim postcode) =? 0)).

Fixpoint all_chars (p : ascii -> bool) (s : string) : bool :=
  match s with
  | EmptyString => true
  | String c r => p c && all_chars p r
  end.

(** What the loop leaves behind for one fragment that was searched without
    acceptance and is not the last one. *)
Definition attempt_events (pc : string) : list Event :=
  [EvFetch (apiUrl pc); EvDelay 1000].

(** ** The earlier revision of the generator and the scorer *)

Module Legacy.

(** [while (current.length > 2)]: the trailing digits are removed without
    the guard of the revised loop, and an emptied [current] is not pushed. *)
Fixpoint while_loop (fuel : nat) (current : string) (hierarchy : list string)
  : option (list string) :=
  match fuel with
  | O => None
  | S fuel' =>
      if 2 <? String.length current then
        if Js.ends_with_class Js.is_upper current
           && Js.exists_char Js.is_digit current
        then
          let current' := Js.slice_0_m1 current in
          while_loop fuel' current' (hierarchy ++ [current'])
        else if Js.ends_with_class Js.is_digit current then
          let current' := Js.strip_trailing_digits current in
          while_loop fuel' current'
            (if 0 <? String.length current' then hierarchy ++ [current']
             else hierarchy)
        else Some hierarchy
      else Some hierarchy
  end.

Definition getPostcodesToTry (postcode : string) : list string :=
  let cleaned := cleaned postcode in
  let hierarchy := if Js.includes_space cleaned then [cleaned] else [] in
  let current := Js.split_space_0 cleaned in
  let hierarchy := hierarchy ++ [current] in
  match while_loop (S (String.length postcode)) current hierarchy with
  | Some hierarchy => Js.set_spread hierarchy
  | None => []
  end.

Definition scoreResult (result : NominatimResult) (query : string) : Q :=
  let score := 0%Q in
  let displayName := Js.toUpperCase (display_name result) in
  let queryUpper := Js.toUpperCase query in
  let score :=
    if (class result =? "boundary")%string && (type result =? "postal_code")%string
    then (score + 100)%Q else score in
  let score :=
    if label_starts_with_query result query then (score + 80)%Q
    else if Js.includes displayName queryUpper then (score + 30)%Q
    else score in
  let score :=
    if (class result =? "boundary")%string then (score + 20)%Q else score in
  let score := (score + importance_or_0 result * 10)%Q in
  score.

End Legacy.

(** ** Vocabulary of the statements *)

(** [b] may follow [a] in a hierarchy: it is not longer than [a]. *)
Definition not_longer (a b : string) : Prop :=
  String.length b <= String.length a.

(** The three ways one round of the loop can go. *)
Inductive Round (current : string) : option string -> Prop :=
| RoundLetter :
    1 < String.length current ->
    Js.ends_with_class Js.is_upper current = true ->
    Js.exists_char Js.is_digit current = true ->
    Round current (Some (Js.slice_0_m1 current))
| RoundDigits :
    1 < String.length current ->
    Js.ends_with_class Js.is_upper current
      && Js.exists_char Js.is_digit current = false ->
    Js.ends_with_class Js.is_digit current = true ->
    0 < String.length (Js.strip_trailing_digits current) ->
    String.eqb (Js.strip_trailing_digits current) current = false ->
    Round current (Some (Js.strip_trailing_digits current))
| RoundStop :
    Round current None.

(** The list pushed before the loop starts. *)
Definition initial_hierarchy (postcode : string) : list string :=
  (if Js.includes_space (cleaned postcode) then [cleaned postcode] else [])
  ++ [Js.split_space_0 (cleaned postcode)].

(** The normalisation as the specification words it: trimmed, uppercased,
    every internal run of whitespace characters replaced by one space. *)
Fixpoint collapse_whitespace (after_ws : bool) (s : string) : string :=
  match s with
  | EmptyString => EmptyString
  | String c r =>
      if Js.is_ws c
      then if after_ws then collapse_whitespace true r
           else String " " (collapse_whitespace true r)
      else String c (collapse_whitespace false r)
  end.

Definition normalized_as_specified (postcode : string) : string :=
  collapse_whitespace false (Js.toUpperCase (Js.trim postcode)).

(** [a], two TAB characters, [b]. *)
Definition tab_separated : string :=
  String "a" (String "009" (String "009" (String "b" EmptyString))).

(** ** Sample candidates and collaborators *)

(** An administrative boundary whose label starts with the query, at the
    top of the importance range. *)
Definition sw1_administrative : NominatimResult := {|
  place_id := 1;
  display_name := "SW1, Westminster, London, Greater London, England, United Kingdom";
  class := "boundary";
  type := "administrative";
  importance := Some 1%Q;
  geojson := Some "Polygon";
  address := None
|}.

(** A place, not a boundary, whose label starts with the query. *)
Definition sw1_place : NominatimResult := {|
  place_id := 2;
  display_name := "SW1, London, England, United Kingdom";
  class := "place";
  type := "postcode";
  importance := None;
  geojson := Some "Polygon";
  address := None
|}.

(** A postal-code boundary whose label and address say nothing of the query. *)
Definition ec1a_postal_code : NominatimResult := {|
  place_id := 3;
  display_name := "London, Greater London, England, United Kingdom";
  class := "boundary";
  type := "postal_code";
  importance := Some (1 # 4);
  geojson := Some "MultiPolygon";
  address := Some {| postcode := None |}
|}.

(** The URLs requested in a trace, in order. *)
Fixpoint fetches (events : list Event) : list string :=
  match events with
  | [] => []
  | EvFetch url :: rest => url :: fetches rest
  | EvDelay _ :: rest => fetches rest
  end.

(** A world in which nothing has happened yet. *)
Definition idle {State} (s : State) : World State := Build_World s [].

(** A collaborator whose every request fails before any HTTP response. *)
Definition always_rejects (s : unit) (url : string) : FetchOutcome * unit :=
  (Rejected "Failed to fetch", s).

(** A collaborator that answers every request with status 503. *)
Definition always_503 (s : unit) (url : string) : FetchOutcome * unit :=
  (Responded false 503 BodyNull, s).

(** A collaborator that knows one postal-code boundary, for the fragment
    EC1A, and answers every other request with an empty array. *)
Definition ec1a_only (s : unit) (url : string) : FetchOutcome * unit :=
  if (url =? apiUrl "EC1A")%string
  then (Responded true 200 (BodyResults [ec1a_postal_code]), s)
  else (Responded true 200 (BodyResults []), s).

(** The resolution ends with an accepted candidate, with the error for a
    missing input or with the error of an exhausted hierarchy. *)
Definition only_exhaustion_is_terminal {State}
  (collaborator : State -> string -> FetchOutcome * State)
  (postcode : string) (w : World State) : Prop :=
  match fst (fetchPostcodeBoundary collaborator postcode w) with
  | Ok _ => True
  | Throw e =>
      e = Error "Please enter a postcode."
      \/ e = Error (no_boundary_message (getPostcodesToTry postcode))
  end.

(** ** Vocabulary of the further properties *)

(** The outward code: the part of the cleaned input the loop starts from. *)
Definition outward (postcode : string) : string :=
  Js.split_space_0 (cleaned postcode).

(** The hierarchy as the loop leaves it, before the [Set] spread. *)
Definition pushed_hierarchy (postcode : string) : list string :=
  match while_loop (S (String.length postcode)) (outward postcode)
          (initial_hierarchy postcode) with
  | Some hierarchy => hierarchy
  | None => []
  end.

(** [b] may follow [a] in a strictly broadening hierarchy. *)
Definition shorter (a b : string) : Prop :=
  String.length b < String.length a.

(** The selection of the earlier revision: the scorer of that revision and
    acceptance of any positive score. *)
Module LegacySearch.

Definition scoredResults (data : list NominatimResult) (query : string)
  : list Scored :=
  sort_desc
    (map (fun r => {| result := r; score := Legacy.scoreResult r query |})
         (filter has_shape data)).

Definition pick (data : list NominatimResult) (query : string)
  : option NominatimResult :=
  match scoredResults data query with
  | bestMatch :: _ =>
      if negb (Qle_bool (score bestMatch) 0)
      then Some (result bestMatch) else None
  | [] => None
  end.

End LegacySearch.

(** The candidate is a postal-code boundary: the first test of
    [scoreResult]. *)
Definition is_postal_code_boundary (r : NominatimResult) : bool :=
  (class r =? "boundary")%string && (type r =? "postal_code")%string.

(** The candidate is a boundary of a penalized type: the last test of
    [scoreResult]. *)
Definition is_penalized_boundary (r : NominatimResult) : bool :=
  (class r =? "boundary")%string
  && existsb (String.eqb (type r)) penalized_types.

(** An administrative boundary without geometry and a place with geometry
    that the label does not tie to the query. *)
Definition westminster_no_shape : NominatimResult := {|
  place_id := 4;
  display_name := "City of Westminster, Greater London, England, United Kingdom";
  class := "boundary";
  type := "administrative";
  importance := Some (7 # 10);
  geojson := None;
  address := None
|}.

Definition london_place : NominatimResult := {|
  place_id := 5;
  display_name := "London, Greater London, England, United Kingdom";
  class := "place";
  type := "city";
  importance := Some (9 # 10);
  geojson := Some "Polygon";
  address := Some {| postcode := Some "WC2N 5DU" |}
|}.

(** A penalized boundary with geometry and no tie to the query. *)
Definition westminster_shape : NominatimResult := {|
  place_id := 6;
  display_name := "City of Westminster, Greater London, England, United Kingdom";
  class := "boundary";
  type := "administrative";
  importance := Some (7 # 10);
  geojson := Some "MultiPolygon";
  address := None
|}.

(** The events of a run that searches the given fragments one after the
    other: one request each, and a pause of one second between two
    requests. *)
Fixpoint paced (fragments : list string) : list Event :=
  match fragments with
  | [] => []
  | pc :: rest =>
      EvFetch (apiUrl pc)
      :: match rest with
         | [] => []
         | _ :: _ => EvDelay 1000 :: paced rest
         end
  end.

(** A collaborator that answers every request with an OK response whose
    only record has no geometry. *)
Definition only_shapeless (s : unit) (url : string) : FetchOutcome * unit :=
  (Responded true 200 (BodyResults [westminster_no_shape]), s).

(** A collaborator that answers every request with an OK response whose
    body is not JSON. *)
Definition always_malformed (s : unit) (url : string) : FetchOutcome * unit :=
  (Responded true 200 BodyMalformed, s).

(** A collaborator that counts the requests in its state and rejects the
    second one; the first gets an empty array. *)
Definition second_rejects (s : nat) (url : string) : FetchOutcome * nat :=
  match s with
  | 0 => (Responded true 200 (BodyResults []), 1)
  | _ => (Rejected "Failed to fetch", S s)
  end.

(** Percent-decoding, the inverse of [encodeURIComponent] on its image. *)
Definition hex_value (c : ascii) : nat :=
  if Js.is_digit c then Js.code c - 48 else Js.code c - 55.

Fixpoint percent_decode (s : string) : string :=
  match s with
  | EmptyString => EmptyString
  | String c r =>
      if Ascii.eqb c "%" then
        match r with
        | String h (String l r') =>
            String (ascii_of_nat (hex_value h * 16 + hex_value l))
                   (percent_decode r')
        | _ => String c (percent_decode r)
        end
      else String c (percent_decode r)
  end.

(** ** The caller: the search handler of the [App] component *)

Module App.

(** The five pieces of component state. *)
Record UiState := {
  postcode : string;
  geoJsonData : option NominatimResult;
  isLoading : bool;
  error : option string;
  isInitial : bool
}.

(** The values given to [useState]. *)
Definition initial : UiState := {|
  postcode := "SW1A 0AA";
  geoJsonData := None;
  isLoading := false;
  error := None;
  isInitial := true
|}.

Definition setGeoJsonData (v : option NominatimResult) (ui : UiState) : UiState :=
  {| postcode := postcode ui; geoJsonData := v; isLoading := isLoading ui;
     error := error ui; isInitial := isInitial ui |}.

Definition setIsLoading (v : bool) (ui : UiState) : UiState :=
  {| postcode := postcode ui; geoJsonData := geoJsonData ui; isLoading := v;
     error := error ui; isInitial := isInitial ui |}.

Definition setError (v : option string) (ui : UiState) : UiState :=
  {| postcode := postcode ui; geoJsonData := geoJsonData ui;
     isLoading := isLoading ui; error := v; isInitial := isInitial ui |}.

Definition setIsInitial (v : bool) (ui : UiState) : UiState :=
  {| postcode := postcode ui; geoJsonData := geoJsonData ui;
     isLoading := isLoading ui; error := error ui; isInitial := v |}.

(** [err instanceof Error]: what the service throws itself is an [Error],
    [fetch] rejects with a [TypeError] and [response.json()] with a
    [SyntaxError]. *)
Definition instanceof_Error (e : Thrown) : bool :=
  match e with
  | Error _ => true
  | FetchRejection _ => true
  | JsonRejection => true
  end.

(** [err.message]; the message of the [SyntaxError] of [response.json()]
    is the engine's and is taken as [json_message]. *)
Definition message (json_message : string) (e : Thrown) : string :=
  match e with
  | Error m => m
  | FetchRejection reason => reason
  | JsonRejection => json_message
  end.

(** [handleSearch]: the state after the handler has run to its end, and
    the world it leaves. *)
Definition handleSearch {State : Type}
  (collaborator : State -> string -> FetchOutcome * State)
  (json_message : string) (ui : UiState) (w : World State)
  : UiState * World State :=
  if String.length (postcode ui) =? 0 then
    (setError (Some "Please enter a UK postcode.") ui, w)
  else
    let ui := setIsLoading true ui in
    let ui := setError None ui in
    let ui := setGeoJsonData None ui in
    let ui := setIsInitial false ui in
    match fetchPostcodeBoundary collaborator (postcode ui) w with
    | (Ok data, w') =>
        let ui := setGeoJsonData (Some data) ui in
        (setIsLoading false ui, w')
    | (Throw err, w') =>
        let ui :=
          if instanceof_Error err
          then setError (Some (message json_message err)) ui
          else setError (Some "An unexpected error occurred.") ui in
        (setIsLoading false ui, w')
    end.

End App.

(** What a failed request makes the search throw. *)
Definition thrown_by (outcome : FetchOutcome) : option Thrown :=
  match outcome with
  | Rejected reason => Some (FetchRejection reason)
  | Responded true _ BodyMalformed => Some JsonRejection
  | Responded _ _ _ => None
  end.

(** ** The service on boundary files ([services/geoService.ts]) *)

Module GeoService.

Definition is_line_terminator (c : ascii) : bool :=
  (Js.code c =? 10) || (Js.code c =? 13).

(** What [.*] leaves: the rest of the string from the next line terminator
    on. *)
Fixpoint skip_line (s : string) : string :=
  match s with
  | EmptyString => EmptyString
  | String c r => if is_line_terminator c then s else skip_line r
  end.

(** [s.replace(/\d.*/, '')]: the first digit and what follows it on its
    line are removed. *)
Fixpoint remove_from_first_digit (s : string) : string :=
  match s with
  | EmptyString => EmptyString
  | String c r =>
      if Js.is_digit c then skip_line r
      else String c (remove_from_first_digit r)
  end.

Record PostcodeParts := { area : string; district : string }.

Definition getPostcodeParts (postcode : string) : PostcodeParts :=
  let cleaned :=
    Js.replace_space_runs (Js.toUpperCase (Js.trim postcode)) in
  let district := Js.split_space_0 cleaned in
  let area := remove_from_first_digit district in
  {| area := area; district := district |}.

(** The properties of a feature the service reads and writes; [name] is
    [None] when it is absent or not a string. *)
Record Properties := { name : option string; id : option string }.

Record Feature := { properties : option Properties; geometry : option string }.

(** What [response.json()] yields: a rejection, a value without a
    [features] array, or a collection. *)
Inductive Body :=
| BodyMalformed
| BodyWithoutFeatures
| BodyCollection (features : list Feature).

Inductive FetchOutcome :=
| Rejected (reason : string)
| Responded (ok : bool) (status : nat) (body : Body).

Inductive Thrown :=
| Error (message : string)
| FetchRejection (reason : string)
| JsonRejection
| TypeError.

Inductive Outcome (A : Type) :=
| Ok (a : A)
| Throw (e : Thrown).
Arguments Ok {A} a.
Arguments Throw {A} e.

(** A number in a template literal. *)
Definition decimal (n : nat) : string :=
  NilEmpty.string_of_uint (Nat.to_uint n).

Definition geoJsonUrl (area : string) : string :=
  ("https://raw.githubusercontent.com/missinglink/uk-postcode-polygons/master/geojson/"
   ++ area ++ ".geojson")%string.

Definition not_found_message (area : string) : string :=
  ("No boundary data found for postcode area " ++ dquote ++ area ++ dquote
   ++ ". The postcode may be incorrect or data may not be available.")%string.

Definition failed_message (status : nat) : string :=
  ("Failed to fetch boundary data. Status: " ++ decimal status)%string.

Definition no_district_message (district area : string) : string :=
  ("Could not find a specific boundary for postcode district " ++ dquote
   ++ district ++ dquote ++ " within the " ++ dquote ++ area ++ dquote
   ++ " area data.")%string.

(** [f.properties?.name === district] *)
Definition named (district : string) (f : Feature) : bool :=
  match properties f with
  | Some p =>
      match name p with
      | Some n => String.eqb n district
      | None => false
      end
  | None => false
  end.

(** [feature.properties!.id = v], on a feature that has properties. *)
Definition set_id (v : string) (f : Feature) : Feature :=
  match properties f with
  | Some p =>
      {| properties := Some {| name := name p; id := Some v |};
         geometry := geometry f |}
  | None => f
  end.

(** The world of this service: the state of the file server, which also
    tells the time, and the URLs requested so far. *)
Record World (State : Type) := { collab : State; requests : list string }.
Arguments collab {State} w.
Arguments requests {State} w.
Arguments Build_World {State} collab requests.

Definition fetchPostcodeBoundary {State : Type}
  (server : State -> string -> FetchOutcome * State)
  (getTime : State -> nat)
  (postcode : string) (w : World State) : Outcome Feature * World State :=
  if (String.length postcode =? 0) || (String.length (Js.trim postcode) =? 0)
  then (Throw (Error "Please enter a postcode."), w)
  else
    let parts := getPostcodeParts postcode in
    if String.length (area parts) =? 0
    then (Throw (Error "Invalid postcode format."), w)
    else
      let url := geoJsonUrl (area parts) in
      let (response, s) := server (collab w) url in
      let w' := Build_World s (requests w ++ [url]) in
      match response with
      | Rejected reason => (Throw (FetchRejection reason), w')
      | Responded ok status body =>
          if negb ok then
            if status =? 404
            then (Throw (Error (not_found_message (area parts))), w')
            else (Throw (Error (failed_message status)), w')
          else
            match body with
            | BodyMalformed => (Throw JsonRejection, w')
            | BodyWithoutFeatures => (Throw TypeError, w')
            | BodyCollection features =>
                match find (named (district parts)) features with
                | None =>
                    (Throw (Error (no_district_message (district parts)
                                                       (area parts))), w')
                | Some feature =>
                    (Ok (set_id (district parts ++ "-" ++ decimal (getTime s))
                                feature), w')
                end
            end
      end.

(** Sample features and a file server that knows the area SW. *)
Definition sw1_feature : Feature :=
  {| properties := Some {| name := Some "SW1"; id := None |};
     geometry := Some "Polygon" |}.

Definition sw1a_feature : Feature :=
  {| properties := Some {| name := Some "SW1A"; id := None |};
     geometry := Some "MultiPolygon" |}.

Definition sw_files (s : nat) (url : string) : FetchOutcome * nat :=
  if String.eqb url (geoJsonUrl "SW")
  then (Responded true 200 (BodyCollection [sw1_feature; sw1a_feature]), S s)
  else (Responded false 404 BodyMalformed, S s).

End GeoService.

(** * Properties *)

(** ** Lengths of the string primitives *)

Lemma length_drop_while p s :
  String.length (Js.drop_while p s) <= String.length s.
Proof.
  induction s as [|c r IH]; simpl; [lia|].
  destruct (p c); simpl; lia.
Qed.

Lemma length_drop_while_end p s :
  String.length (Js.drop_while_end p s) <= String.length s.
Proof.
  induction s as [|c r IH]; simpl; [lia|].
  destruct (Js.drop_while_end p r) as [|c' r'].
  - destruct (p c); simpl; lia.
  - simpl in *; lia.
Qed.

Lemma drop_while_end_same_length p s :
  String.length (Js.drop_while_end p s) = String.length s ->
  Js.drop_while_end p s = s.
Proof.
  induction s as [|c r IH]; simpl; [reflexivity|].
  pose proof (length_drop_while_end p r) as Hle.
  destruct (Js.drop_while_end p r) as [|c' r'] eqn:E.
  - destruct (p c); simpl; intros H; [discriminate|].
    destruct r; [reflexivity | simpl in H; discriminate].
  - intros H. f_equal. apply IH. simpl in H |- *. lia.
Qed.

Lemma length_toUpperCase s :
  String.length (Js.toUpperCase s) = String.length s.
Proof. induction s; simpl; congruence. Qed.

Lemma length_collapse_spaces b s :
  String.length (Js.collapse_spaces b s) <= String.length s.
Proof.
  revert b; induction s as [|c r IH]; intros b; simpl; [lia|].
  destruct (Js.is_space c).
  - destruct b; simpl; specialize (IH true); lia.
  - simpl; specialize (IH false); lia.
Qed.

Lemma length_split_space_0 s :
  String.length (Js.split_space_0 s) <= String.length s.
Proof.
  induction s as [|c r IH]; simpl; [lia|].
  destruct (Js.is_space c); simpl; lia.
Qed.

Lemma length_slice_0_m1 s :
  String.length (Js.slice_0_m1 s) = pred (String.length s).
Proof.
  induction s as [|c r IH]; simpl; [reflexivity|].
  destruct r as [|c' r']; [reflexivity|].
  simpl in *. lia.
Qed.

Lemma length_trim s : String.length (Js.trim s) <= String.length s.
Proof.
  unfold Js.trim.
  pose proof (length_drop_while_end Js.is_ws (Js.drop_while Js.is_ws s)).
  pose proof (length_drop_while Js.is_ws s). lia.
Qed.

Lemma length_cleaned s : String.length (cleaned s) <= String.length s.
Proof.
  unfold cleaned, Js.replace_space_runs.
  pose proof (length_collapse_spaces false (Js.toUpperCase (Js.trim s))).
  rewrite length_toUpperCase in H.
  pose proof (length_trim s). lia.
Qed.

(** A successful strip of the trailing digits yields a strictly shorter
    string: this is what makes the guarded branch of the loop progress. *)
Lemma strip_trailing_digits_shorter s :
  String.eqb (Js.strip_trailing_digits s) s = false ->
  String.length (Js.strip_trailing_digits s) < String.length s.
Proof.
  intros Hne. unfold Js.strip_trailing_digits in *.
  pose proof (length_drop_while_end Js.is_digit s) as Hle.
  destruct (Nat.eq_dec (String.length (Js.drop_while_end Js.is_digit s))
                       (String.length s)) as [Heq|Hneq]; [|lia].
  apply drop_while_end_same_length in Heq.
  rewrite Heq, String.eqb_refl in Hne. discriminate.
Qed.

(** ** The broadening loop *)

Lemma StronglySorted_snoc {A} (R : A -> A -> Prop) l y :
  StronglySorted R l -> Forall (fun x => R x y) l ->
  StronglySorted R (l ++ [y]).
Proof.
  induction 1 as [|a l Hl IH Ha]; intros Hy; simpl.
  - repeat constructor.
  - inversion Hy; subst. constructor; [auto|].
    apply Forall_app; split; [assumption | repeat constructor; assumption].
Qed.

Lemma StronglySorted_remove {A} (R : A -> A -> Prop) l x l' :
  StronglySorted R (l ++ x :: l') -> StronglySorted R (l ++ l').
Proof.
  induction l as [|a l IH]; simpl; intros H.
  - now inversion H.
  - inversion H as [|? ? Hs Hf]; subst. constructor; [auto|].
    apply Forall_app in Hf as [Hf1 Hf2]. inversion Hf2; subst.
    apply Forall_app; split; assumption.
Qed.

Lemma Round_shorter current next :
  Round current (Some next) -> String.length next < String.length current.
Proof.
  inversion 1; subst.
  - rewrite length_slice_0_m1. lia.
  - now apply strip_trailing_digits_shorter.
Qed.

Lemma while_loop_unfold fuel current hierarchy :
  exists step, Round current step /\
    while_loop (S fuel) current hierarchy =
    match step with
    | Some next => while_loop fuel next (hierarchy ++ [next])
    | None => Some hierarchy
    end.
Proof.
  simpl.
  destruct (1 <? String.length current) eqn:Hlen;
    [apply Nat.ltb_lt in Hlen | exists None; split; [constructor | reflexivity]].
  destruct (Js.ends_with_class Js.is_upper current
            && Js.exists_char Js.is_digit current) eqn:Hletter.
  - apply andb_true_iff in Hletter as [H1 H2].
    exists (Some (Js.slice_0_m1 current)); split; [now constructor | reflexivity].
  - destruct (Js.ends_with_class Js.is_digit current) eqn:Hdigit;
      [| exists None; split; [constructor | reflexivity]].
    destruct ((0 <? String.length (Js.strip_trailing_digits current))
              && negb (String.eqb (Js.strip_trailing_digits current) current))
      eqn:Hguard; [| exists None; split; [constructor | reflexivity]].
    apply andb_true_iff in Hguard as [H1 H2].
    apply Nat.ltb_lt in H1. apply negb_true_iff in H2.
    exists (Some (Js.strip_trailing_digits current)); split;
      [now constructor | reflexivity].
Qed.

(** The loop exits within [length current] rounds. *)
Lemma while_loop_total fuel : forall current hierarchy,
  String.length current < fuel ->
  exists r, while_loop fuel current hierarchy = Some r.
Proof.
  induction fuel as [|fuel IH]; intros current hierarchy Hlt; [lia|].
  destruct (while_loop_unfold fuel current hierarchy) as [[next|] [Hr ->]].
  - apply IH. apply Round_shorter in Hr. lia.
  - eauto.
Qed.

(** A larger budget does not change the result. *)
Lemma while_loop_more_fuel fuel : forall current hierarchy r k,
  while_loop fuel current hierarchy = Some r ->
  while_loop (fuel + k) current hierarchy = Some r.
Proof.
  induction fuel as [|fuel IH]; intros current hierarchy r k H; [discriminate|].
  change (S fuel + k) with (S (fuel + k)).
  simpl in *.
  destruct (1 <? String.length current); [|assumption].
  destruct (Js.ends_with_class Js.is_upper current
            && Js.exists_char Js.is_digit current); [now apply IH|].
  destruct (Js.ends_with_class Js.is_digit current); [|assumption].
  destruct ((0 <? String.length (Js.strip_trailing_digits current))
            && negb (String.eqb (Js.strip_trailing_digits current) current));
    [now apply IH | assumption].
Qed.

Lemma while_loop_extends fuel : forall current hierarchy r,
  while_loop fuel current hierarchy = Some r ->
  exists added, r = hierarchy ++ added.
Proof.
  induction fuel as [|fuel IH]; intros current hierarchy r H; [discriminate|].
  destruct (while_loop_unfold fuel current hierarchy) as [[next|] [_ E]];
    rewrite E in H.
  - apply IH in H as [added ->]. exists (next :: added).
    now rewrite <- app_assoc.
  - inversion H; subst. exists []. now rewrite app_nil_r.
Qed.

Lemma while_loop_sorted fuel : forall current hierarchy r,
  while_loop fuel current hierarchy = Some r ->
  StronglySorted not_longer hierarchy ->
  Forall (fun x => not_longer x current) hierarchy ->
  StronglySorted not_longer r.
Proof.
  induction fuel as [|fuel IH]; intros current hierarchy r H Hs Hc; [discriminate|].
  destruct (while_loop_unfold fuel current hierarchy) as [[next|] [Hr E]];
    rewrite E in H.
  - apply Round_shorter in Hr.
    assert (Hn : Forall (fun x => not_longer x next) hierarchy).
    { eapply Forall_impl; [|exact Hc]. unfold not_longer. intros; lia. }
    eapply IH; [exact H | now apply StronglySorted_snoc |].
    apply Forall_app; split; [assumption|].
    repeat constructor.
  - now inversion H; subst.
Qed.

(** ** Deduplication through a [Set] *)

Lemma existsb_eqb_In x l : existsb (String.eqb x) l = true <-> In x l.
Proof.
  rewrite existsb_exists. split.
  - intros [y [Hy E]]. apply String.eqb_eq in E. now subst.
  - intros H. exists x. split; [assumption | apply String.eqb_refl].
Qed.

Lemma set_add_cases seen x :
  (In x seen /\ Js.set_add seen x = seen) \/
  (~ In x seen /\ Js.set_add seen x = seen ++ [x]).
Proof.
  unfold Js.set_add. destruct (existsb (String.eqb x) seen) eqn:E.
  - left. split; [now apply existsb_eqb_In | reflexivity].
  - right. split; [|reflexivity]. intros H. apply existsb_eqb_In in H. congruence.
Qed.

Lemma fold_set_add_NoDup xs : forall seen,
  NoDup seen -> NoDup (fold_left Js.set_add xs seen).
Proof.
  induction xs as [|x xs IH]; intros seen Hnd; simpl; [assumption|].
  apply IH. destruct (set_add_cases seen x) as [[_ ->]|[Hn ->]]; [assumption|].
  apply NoDup_app; [assumption | repeat constructor; intros [] | ].
  intros y Hy [<-|[]]. contradiction.
Qed.

Lemma fold_set_add_sorted (R : string -> string -> Prop) xs : forall seen,
  StronglySorted R (seen ++ xs) ->
  StronglySorted R (fold_left Js.set_add xs seen).
Proof.
  induction xs as [|x xs IH]; intros seen Hs; simpl.
  - now rewrite app_nil_r in Hs.
  - apply IH. destruct (set_add_cases seen x) as [[_ ->]|[_ ->]].
    + now apply StronglySorted_remove in Hs.
    + now rewrite <- app_assoc.
Qed.

Lemma fold_set_add_extends xs : forall seen,
  exists added, fold_left Js.set_add xs seen = seen ++ added.
Proof.
  induction xs as [|x xs IH]; intros seen; simpl.
  - exists []. now rewrite app_nil_r.
  - destruct (IH (Js.set_add seen x)) as [added ->].
    destruct (set_add_cases seen x) as [[_ ->]|[_ ->]]; [eauto|].
    exists (x :: added). now rewrite <- app_assoc.
Qed.

Lemma set_spread_NoDup xs : NoDup (Js.set_spread xs).
Proof. apply fold_set_add_NoDup. constructor. Qed.

Lemma set_spread_sorted R xs :
  StronglySorted R xs -> StronglySorted R (Js.set_spread xs).
Proof. intros H. now apply fold_set_add_sorted. Qed.

Lemma set_spread_head x xs :
  exists rest, Js.set_spread (x :: xs) = x :: rest.
Proof.
  change (Js.set_spread (x :: xs)) with (fold_left Js.set_add xs [x]).
  destruct (fold_set_add_extends xs [x]) as [added ->]. simpl. eauto.
Qed.

(** ** The generator as a whole *)

Lemma initial_hierarchy_head postcode :
  exists rest, initial_hierarchy postcode = cleaned postcode :: rest.
Proof.
  unfold initial_hierarchy.
  destruct (Js.includes_space (cleaned postcode)) eqn:E; simpl; [eauto|].
  exists []. f_equal.
  unfold Js.includes_space in E.
  induction (cleaned postcode) as [|c r IH]; simpl in *; [reflexivity|].
  apply orb_false_iff in E as [-> E]. f_equal. auto.
Qed.

Lemma initial_hierarchy_sorted postcode :
  StronglySorted not_longer (initial_hierarchy postcode) /\
  Forall (fun x => not_longer x (Js.split_space_0 (cleaned postcode)))
         (initial_hierarchy postcode).
Proof.
  unfold initial_hierarchy, not_longer.
  pose proof (length_split_space_0 (cleaned postcode)).
  destruct (Js.includes_space (cleaned postcode)); simpl;
    repeat constructor; auto.
Qed.

Lemma getPostcodesToTry_loop postcode :
  exists h,
    (forall k, while_loop (S (String.length postcode) + k)
                 (Js.split_space_0 (cleaned postcode))
                 (initial_hierarchy postcode) = Some h) /\
    getPostcodesToTry postcode = Js.set_spread h.
Proof.
  destruct (while_loop_total (S (String.length postcode))
              (Js.split_space_0 (cleaned postcode))
              (initial_hierarchy postcode)) as [h Hh].
  { pose proof (length_split_space_0 (cleaned postcode)).
    pose proof (length_cleaned postcode). lia. }
  exists h. split.
  - intros k. now apply while_loop_more_fuel.
  - unfold getPostcodesToTry, getPostcodesToTry_fuel.
    fold (initial_hierarchy postcode). now rewrite Hh.
Qed.

(** The budget of [getPostcodesToTry] is enough, and any larger one gives
    the same hierarchy. *)
Lemma getPostcodesToTry_fuel_total postcode k :
  getPostcodesToTry_fuel (S (String.length postcode) + k) postcode
  = Some (getPostcodesToTry postcode).
Proof.
  destruct (getPostcodesToTry_loop postcode) as [h [Hh ->]].
  unfold getPostcodesToTry_fuel. fold (initial_hierarchy postcode).
  now rewrite Hh.
Qed.

(** C3, as stated, fails: the generator applied to "SE21" does not return
    the three-element list SE21, SE2, SE. *)
Lemma C3_three_fragments_refuted :
  getPostcodesToTry "SE21" <> ["SE21"; "SE2"; "SE"].
Proof. discriminate. Qed.

(** C3, amended: the generator applied to "SE21" returns exactly the
    two-element list SE21, SE, because the whole trailing run of digits is
    removed in one round of the loop. *)
Theorem C3_SE21_hierarchy :
  getPostcodesToTry "SE21" = ["SE21"; "SE"]
  /\ Js.strip_trailing_digits "SE21" = "SE".
Proof. split; reflexivity. Qed.

(** C4: the generator applied to "SW1A 0AA" returns SW1A 0AA, SW1A, SW1, SW
    and applied to "M1" returns M1, M. *)
Theorem C4_documented_hierarchies :
  getPostcodesToTry "SW1A 0AA" = ["SW1A 0AA"; "SW1A"; "SW1"; "SW"]
  /\ getPostcodesToTry "M1" = ["M1"; "M"].
Proof. split; reflexivity. Qed.

(** The earlier revision stops at two characters: it agrees on the full
    postcode and leaves the district "M1" alone. *)
Lemma Legacy_hierarchies :
  Legacy.getPostcodesToTry "SW1A 0AA" = ["SW1A 0AA"; "SW1A"; "SW1"; "SW"]
  /\ Legacy.getPostcodesToTry "M1" = ["M1"]
  /\ Legacy.getPostcodesToTry "SE21" = ["SE21"; "SE"].
Proof. repeat split; reflexivity. Qed.

(** C6: for every input the hierarchy has no duplicate element and each
    element is at most as long as the element before it. *)
Theorem C6_no_duplicates_lengths_non_increasing (postcode : string) :
  NoDup (getPostcodesToTry postcode)
  /\ Sorted (fun previous element =>
               String.length element <= String.length previous)
            (getPostcodesToTry postcode).
Proof.
  destruct (getPostcodesToTry_loop postcode) as [h [Hh ->]].
  split; [apply set_spread_NoDup|].
  apply StronglySorted_Sorted.
  apply (set_spread_sorted not_longer).
  destruct (initial_hierarchy_sorted postcode) as [Hs Hc].
  exact (while_loop_sorted _ _ _ _ (Hh 0) Hs Hc).
Qed.

(** C10, as stated, fails: with two TAB characters inside the input the
    first element keeps them, while the normalisation as worded would
    replace them by one space. *)
Lemma C10_whitespace_runs_refuted :
  ~ (forall postcode, exists rest,
       getPostcodesToTry postcode = normalized_as_specified postcode :: rest).
Proof.
  intros H. destruct (H tab_separated) as [rest E].
  vm_compute in E. discriminate.
Qed.

(** C10, amended: for every input the generator terminates (its iteration
    budget is enough, and a larger one gives the same list) and returns a
    list with at least one element whose first element is the input
    trimmed, uppercased and with every run of space characters replaced by
    one space. *)
Theorem C10_terminates_nonempty_head_cleaned (postcode : string) :
  exists rest,
    getPostcodesToTry postcode
    = Js.replace_space_runs (Js.toUpperCase (Js.trim postcode)) :: rest
    /\ forall k,
        getPostcodesToTry_fuel (S (String.length postcode) + k) postcode
        = Some (Js.replace_space_runs (Js.toUpperCase (Js.trim postcode)) :: rest).
Proof.
  fold (cleaned postcode).
  assert (E : exists rest, getPostcodesToTry postcode = cleaned postcode :: rest).
  { destruct (getPostcodesToTry_loop postcode) as [h [Hh ->]].
    destruct (while_loop_extends _ _ _ _ (Hh 0)) as [added ->].
    destruct (initial_hierarchy_head postcode) as [rest ->].
    apply set_spread_head. }
  destruct E as [rest E]. exists rest. split; [assumption|].
  intros k. rewrite <- E. apply getPostcodesToTry_fuel_total.
Qed.

Example tab_separated_hierarchy :
  getPostcodesToTry tab_separated
  = [String "A" (String "009" (String "009" (String "B" EmptyString)))]
  /\ normalized_as_specified tab_separated = "A B".
Proof. split; reflexivity. Qed.

Example degenerate_hierarchies :
  getPostcodesToTry EmptyString = [EmptyString]
  /\ getPostcodesToTry "   " = [EmptyString]
  /\ getPostcodesToTry "12345" = ["12345"]
  /\ getPostcodesToTry "sw1a0aa" = ["SW1A0AA"; "SW1A0A"; "SW1A0"; "SW1A"; "SW1"; "SW"].
Proof. repeat split; reflexivity. Qed.

(** ** The scorer *)

Lemma prefix_app_l a b s :
  String.prefix (a ++ b)%string s = true -> String.prefix a s = true.
Proof.
  revert s; induction a as [|c a IH]; intros s; simpl.
  - destruct s; reflexivity.
  - destruct s as [|c' s]; simpl; [discriminate|].
    destruct (Ascii.ascii_dec c c'); [apply IH | discriminate].
Qed.

Lemma includes_of_prefix s sub :
  String.prefix sub s = true -> Js.includes s sub = true.
Proof. intros H. destruct s; simpl in *; rewrite H; reflexivity. Qed.

(** A label that starts with the query followed by a comma or a space
    contains the query. *)
Lemma label_prefix_includes result query :
  label_starts_with_query result query = true ->
  Js.includes (Js.toUpperCase (display_name result)) (Js.toUpperCase query) = true.
Proof.
  unfold label_starts_with_query, Js.startsWith. intros H.
  apply includes_of_prefix.
  apply orb_true_iff in H as [H|H]; eapply prefix_app_l; exact H.
Qed.

(** What [scoreResult] adds up when the label starts with the query and the
    structured postcode does not match: the containment test sits in the
    [else] of the structured-postcode test, so its 20 comes on top of
    the 80. *)
Lemma scoreResult_prefix_without_postcode result query :
  label_starts_with_query result query = true ->
  address_postcode_startsWith result (Js.toUpperCase query) = false ->
  (scoreResult result query ==
   (if (class result =? "boundary")%string && (type result =? "postal_code")%string
    then 100 else 0)
   + 80 + 20 + importance_or_0 result * 10
   - (if (class result =? "boundary")%string
         && existsb (String.eqb (type result)) penalized_types
      then 60 else 0))%Q.
Proof.
  intros Hp Ha. unfold scoreResult.
  rewrite Hp, Ha, (label_prefix_includes _ _ Hp).
  destruct ((class result =? "boundary")%string && (type result =? "postal_code")%string);
    destruct ((class result =? "boundary")%string
              && existsb (String.eqb (type result)) penalized_types); lra.
Qed.

(** In the earlier revision the containment test is the [else] of the
    label-prefix test: the two never add up. *)
Lemma Legacy_scoreResult_prefix result query :
  label_starts_with_query result query = true ->
  (Legacy.scoreResult result query ==
   (if (class result =? "boundary")%string && (type result =? "postal_code")%string
    then 100 else 0)
   + 80
   + (if (class result =? "boundary")%string then 20 else 0)
   + importance_or_0 result * 10)%Q.
Proof.
  intros Hp. unfold Legacy.scoreResult. rewrite Hp.
  destruct ((class result =? "boundary")%string && (type result =? "postal_code")%string);
    destruct (class result =? "boundary")%string; lra.
Qed.

(** The score of an administrative boundary with a label-prefix match and
    no structured postcode. *)
Lemma scoreResult_administrative_prefix result query :
  class result = "boundary" ->
  type result = "administrative" ->
  label_starts_with_query result query = true ->
  address result = None ->
  (scoreResult result query == 80 + 20 - 60 + importance_or_0 result * 10)%Q.
Proof.
  intros Hc Ht Hp Ha.
  rewrite (scoreResult_prefix_without_postcode _ _ Hp);
    [| unfold address_postcode_startsWith; now rewrite Ha].
  rewrite Hc, Ht. simpl. lra.
Qed.

(** C1, the code at the failing input: an administrative boundary whose
    label starts with the query, without structured postcode and with
    importance 1, scores 50 and not 80 - 60 + 10; it reaches the confidence
    threshold and is picked. *)
Theorem C1_administrative_prefix_scores_50 :
  (scoreResult sw1_administrative "SW1" == 50)%Q
  /\ ~ (scoreResult sw1_administrative "SW1" == 80 - 60 + 1 * 10)%Q
  /\ ~ (scoreResult sw1_administrative "SW1" < MINIMUM_CONFIDENCE_SCORE)%Q
  /\ pick [sw1_administrative] "SW1" = Some sw1_administrative.
Proof.
  repeat split.
  - vm_compute. intros H; discriminate H.
  - vm_compute. intros H; discriminate H.
Qed.

(** C2, the code at the failing input: a candidate whose label starts with
    the query followed by a comma, with nothing else to its credit, scores
    80 + 20: it receives the containment bonus on top of the label-prefix
    bonus.  The earlier revision gives it 80. *)
Theorem C2_prefix_and_containment_add_up :
  label_starts_with_query sw1_place "SW1" = true
  /\ (scoreResult sw1_place "SW1" == 80 + 20)%Q
  /\ (Legacy.scoreResult sw1_place "SW1" == 80)%Q.
Proof. repeat split. Qed.

(** C5: a candidate of class boundary and type postal_code with a
    non-negative importance scores at least 100, hence at least the
    confidence threshold, whatever its other fields and the query. *)
Theorem C5_postal_code_boundary_at_least_100
  (result : NominatimResult) (query : string) :
  class result = "boundary" ->
  type result = "postal_code" ->
  (0 <= importance_or_0 result)%Q ->
  (100 <= scoreResult result query)%Q
  /\ (MINIMUM_CONFIDENCE_SCORE <= scoreResult result query)%Q.
Proof.
  intros Hc Ht Hi.
  assert (H : (100 <= scoreResult result query)%Q).
  { unfold scoreResult. rewrite Hc, Ht. simpl.
    destruct (label_starts_with_query result query);
      destruct (address_postcode_startsWith result (Js.toUpperCase query));
      destruct (Js.includes (Js.toUpperCase (display_name result))
                            (Js.toUpperCase query)); lra. }
  split; [assumption|]. unfold MINIMUM_CONFIDENCE_SCORE. lra.
Qed.

Lemma C5_witness :
  class ec1a_postal_code = "boundary"
  /\ type ec1a_postal_code = "postal_code"
  /\ (0 <= importance_or_0 ec1a_postal_code)%Q
  /\ (100 <= scoreResult ec1a_postal_code "EC1A")%Q
  /\ (MINIMUM_CONFIDENCE_SCORE <= scoreResult ec1a_postal_code "EC1A")%Q.
Proof.
  split; [reflexivity|]. split; [reflexivity|].
  split; [vm_compute; discriminate|].
  apply (C5_postal_code_boundary_at_least_100 ec1a_postal_code "EC1A");
    [reflexivity | reflexivity | vm_compute; discriminate].
Defined.

(** ** The orchestrator *)

Section OrchestratorProperties.

Variable State : Type.
Variable collaborator : State -> string -> FetchOutcome * State.

Lemma searchNominatim_not_ok pc w status body s :
  collaborator (collab w) (apiUrl pc) = (Responded false status body, s) ->
  searchNominatim collaborator pc w = (Ok None, log (EvFetch (apiUrl pc)) w s).
Proof.
  intros H. unfold searchNominatim, bind, fetch. now rewrite H.
Qed.

Lemma searchNominatim_results pc w status data s :
  collaborator (collab w) (apiUrl pc) = (Responded true status (BodyResults data), s) ->
  searchNominatim collaborator pc w
  = (Ok (pick data pc), log (EvFetch (apiUrl pc)) w s).
Proof.
  intros H. unfold searchNominatim, bind, fetch. now rewrite H.
Qed.

Lemma searchNominatim_rejected pc w reason s :
  collaborator (collab w) (apiUrl pc) = (Rejected reason, s) ->
  searchNominatim collaborator pc w
  = (Throw (FetchRejection reason), log (EvFetch (apiUrl pc)) w s).
Proof.
  intros H. unfold searchNominatim, bind, fetch. now rewrite H.
Qed.

(** Every search issues exactly one request. *)
Lemma searchNominatim_trace pc w :
  trace (snd (searchNominatim collaborator pc w))
  = trace w ++ [EvFetch (apiUrl pc)].
Proof.
  unfold searchNominatim, bind, fetch.
  destruct (collaborator (collab w) (apiUrl pc)) as [[reason|ok status body] s];
    [reflexivity|].
  destruct ok; [|reflexivity].
  destruct body; reflexivity.
Qed.

Lemma for_loop_none pc rest w w' :
  searchNominatim collaborator pc w = (Ok None, w') ->
  for_loop collaborator (pc :: rest) w
  = match rest with
    | [] => (Ok None, w')
    | _ :: _ => for_loop collaborator rest (log (EvDelay 1000) w' (collab w'))
    end.
Proof.
  intros H. simpl. unfold bind at 1. rewrite H.
  destruct rest; reflexivity.
Qed.

Lemma for_loop_some pc rest w r w' :
  searchNominatim collaborator pc w = (Ok (Some r), w') ->
  for_loop collaborator (pc :: rest) w = (Ok (Some r), w').
Proof. intros H. simpl. unfold bind at 1. now rewrite H. Qed.

Lemma for_loop_throw pc rest w e w' :
  searchNominatim collaborator pc w = (Throw e, w') ->
  for_loop collaborator (pc :: rest) w = (Throw e, w').
Proof. intros H. simpl. unfold bind at 1. now rewrite H. Qed.

(** The loop over a list whose first fragments are searched without
    acceptance is the loop over the rest. *)
Lemma for_loop_skip pre : forall pc post w w1,
  rejected_prefix collaborator pre w = Some w1 ->
  for_loop collaborator (pre ++ pc :: post) w
  = for_loop collaborator (pc :: post) w1.
Proof.
  induction pre as [|p pre IH]; intros pc post w w1 H; simpl in H.
  - now inversion H.
  - destruct (searchNominatim collaborator p w) as [[[r|]|e] w'] eqn:E;
      try discriminate.
    change ((p :: pre) ++ pc :: post) with (p :: (pre ++ pc :: post)).
    rewrite (for_loop_none _ _ _ _ E).
    rewrite <- (IH pc post _ _ H).
    destruct pre; reflexivity.
Qed.

Lemma rejected_prefix_trace pre : forall w w1,
  rejected_prefix collaborator pre w = Some w1 ->
  trace w1 = trace w ++ flat_map attempt_events pre.
Proof.
  induction pre as [|p pre IH]; intros w w1 H; simpl in H.
  - inversion H; subst. simpl. now rewrite app_nil_r.
  - pose proof (searchNominatim_trace p w) as Ht.
    destruct (searchNominatim collaborator p w) as [[[r|]|e] w'] eqn:E;
      try discriminate.
    apply IH in H. rewrite H. simpl in *. rewrite Ht.
    now rewrite <- !app_assoc.
Qed.

Lemma fetchPostcodeBoundary_entered postcode w :
  entered postcode = true ->
  fetchPostcodeBoundary collaborator postcode w
  = bind (for_loop collaborator (getPostcodesToTry postcode))
         (fun found =>
            match found with
            | Some r => ret r
            | None => throw (Error (no_boundary_message (getPostcodesToTry postcode)))
            end) w.
Proof.
  unfold entered, fetchPostcodeBoundary. intros H.
  apply negb_true_iff in H. now rewrite H.
Qed.

End OrchestratorProperties.

(** *** Ranking *)

Lemma insert_desc_In x y l : In y (insert_desc x l) <-> y = x \/ In y l.
Proof.
  induction l as [|z l IH]; simpl.
  - intuition.
  - destruct (score_lt x z); simpl; rewrite ?IH; intuition.
Qed.

Lemma sort_desc_In y l : In y (sort_desc l) <-> In y l.
Proof.
  induction l as [|x l IH]; simpl; [tauto|].
  rewrite insert_desc_In, IH. intuition.
Qed.

Lemma score_lt_true a b : score_lt a b = true -> (score a <= score b)%Q.
Proof.
  unfold score_lt. intros H. apply negb_true_iff in H.
  destruct (Qlt_le_dec (score a) (score b)) as [Hlt|Hle].
  - now apply Qlt_le_weak.
  - apply Qle_bool_iff in Hle. congruence.
Qed.

Lemma score_lt_false a b : score_lt a b = false -> (score b <= score a)%Q.
Proof.
  unfold score_lt. intros H. apply negb_false_iff in H.
  now apply Qle_bool_iff.
Qed.

(** The first element of the sorted array has the highest score. *)
Lemma sort_desc_head_top l : forall best others,
  sort_desc l = best :: others ->
  Forall (fun c => (score c <= score best)%Q) l.
Proof.
  induction l as [|x l IH]; intros best others H; [constructor|].
  simpl in H. destruct (sort_desc l) as [|y s] eqn:E.
  - assert (l = []) as ->.
    { destruct l as [|z l]; [reflexivity|].
      assert (Hin : In z (sort_desc (z :: l))) by (apply sort_desc_In; now left).
      rewrite E in Hin. destruct Hin. }
    simpl in H. inversion H; subst. repeat constructor. apply Qle_refl.
  - specialize (IH y s eq_refl). simpl in H.
    destruct (score_lt x y) eqn:Hlt; inversion H; subst.
    + constructor; [now apply score_lt_true | assumption].
    + apply score_lt_false in Hlt.
      constructor; [apply Qle_refl|].
      eapply Forall_impl; [|exact IH]. intros c Hc. simpl in Hc.
      eapply Qle_trans; eassumption.
Qed.

(** The first of [scoredResults] is a geometry-bearing candidate of the
    response, paired with its own score, and no geometry-bearing candidate
    of the response scores higher. *)
Lemma scoredResults_head data query best others :
  scoredResults data query = best :: others ->
  In (result best) data
  /\ has_shape (result best) = true
  /\ score best = scoreResult (result best) query
  /\ forall r, In r data -> has_shape r = true ->
       (scoreResult r query <= score best)%Q.
Proof.
  unfold scoredResults. intros H.
  assert (Hin : In best (sort_desc
            (map (fun r => {| result := r; score := scoreResult r query |})
                 (filter has_shape data)))) by (rewrite H; now left).
  apply sort_desc_In, in_map_iff in Hin as [r0 [<- Hr0]].
  apply filter_In in Hr0 as [Hd Hs]. simpl.
  repeat split; try assumption.
  intros r Hr Hsh. apply sort_desc_head_top in H.
  rewrite Forall_forall in H.
  apply (H {| result := r; score := scoreResult r query |}).
  apply in_map_iff. exists r. split; [reflexivity|].
  apply filter_In. now split.
Qed.

Lemma pick_accepts data query best others :
  scoredResults data query = best :: others ->
  (MINIMUM_CONFIDENCE_SCORE <= score best)%Q ->
  pick data query = Some (result best).
Proof.
  intros H Hs. unfold pick. rewrite H.
  apply Qle_bool_iff in Hs. now rewrite Hs.
Qed.

Lemma trim_blank s : all_chars Js.is_ws s = true -> Js.trim s = EmptyString.
Proof.
  unfold Js.trim. intros H.
  assert (E : Js.drop_while Js.is_ws s = EmptyString).
  { induction s as [|c r IH]; simpl in *; [reflexivity|].
    apply andb_true_iff in H as [-> H]. auto. }
  now rewrite E.
Qed.

(** *** Acceptance, failure and missing input *)

(** C8: once the fragments before [pc] have been searched without
    acceptance and the top-scoring geometry-bearing candidate of the
    response for [pc] reaches the threshold, the resolution returns that
    candidate, and the trace ends with the request for [pc]: nothing is
    requested for the broader fragments [post]. *)
Theorem C8_accepts_and_stops
  (State : Type) (collaborator : State -> string -> FetchOutcome * State)
  (postcode : string) (pre : list string) (pc : string) (post : list string)
  (w w1 : World State) (status : nat) (data : list NominatimResult)
  (s : State) (best : Scored) (others : list Scored) :
  entered postcode = true ->
  getPostcodesToTry postcode = pre ++ pc :: post ->
  rejected_prefix collaborator pre w = Some w1 ->
  collaborator (collab w1) (apiUrl pc)
    = (Responded true status (BodyResults data), s) ->
  scoredResults data pc = best :: others ->
  (MINIMUM_CONFIDENCE_SCORE <= score best)%Q ->
  fetchPostcodeBoundary collaborator postcode w
    = (Ok (result best),
       Build_World s (trace w ++ flat_map attempt_events pre
                              ++ [EvFetch (apiUrl pc)]))
  /\ fetches (trace w ++ flat_map attempt_events pre ++ [EvFetch (apiUrl pc)])
     = fetches (trace w) ++ map apiUrl (pre ++ [pc])
  /\ (forall r, In r data -> has_shape r = true ->
        (scoreResult r pc <= score best)%Q).
Proof.
  intros He Hh Hpre Hc Hbest Hscore.
  split; [|split].
  - rewrite (fetchPostcodeBoundary_entered _ _ _ _ He), Hh.
    unfold bind. rewrite (for_loop_skip _ _ _ _ _ _ _ Hpre).
    pose proof (searchNominatim_results _ _ _ _ _ _ _ Hc) as Hs.
    rewrite (pick_accepts _ _ _ _ Hbest Hscore) in Hs.
    rewrite (for_loop_some _ _ _ _ _ _ _ Hs).
    unfold ret, log. rewrite (rejected_prefix_trace _ _ _ _ _ Hpre).
    now rewrite <- app_assoc.
  - clear. rewrite app_assoc.
    assert (Happ : forall a b, fetches (a ++ b) = fetches a ++ fetches b).
    { induction a as [|[url|ms] a IH]; intros b; simpl; rewrite ?IH; reflexivity. }
    rewrite !Happ, map_app, <- app_assoc. simpl. do 2 f_equal.
    induction pre as [|p pre IH]; simpl; [reflexivity | now rewrite IH].
  - apply (scoredResults_head _ _ _ _ Hbest).
Qed.

Lemma C8_witness :
  fetchPostcodeBoundary ec1a_only "EC1A 1BB" (idle tt)
  = (Ok ec1a_postal_code,
     Build_World tt [EvFetch (apiUrl "EC1A 1BB"); EvDelay 1000;
                     EvFetch (apiUrl "EC1A")])
  /\ getPostcodesToTry "EC1A 1BB" = ["EC1A 1BB"; "EC1A"; "EC1"; "EC"].
Proof.
  split; [|reflexivity].
  apply (C8_accepts_and_stops unit ec1a_only "EC1A 1BB"
           ["EC1A 1BB"] "EC1A" ["EC1"; "EC"] (idle tt)
           (Build_World tt [EvFetch (apiUrl "EC1A 1BB"); EvDelay 1000])
           200 [ec1a_postal_code] tt
           {| result := ec1a_postal_code;
              score := scoreResult ec1a_postal_code "EC1A" |} []);
    try reflexivity.
  vm_compute. discriminate.
Defined.

(** C7, as stated, fails: when the request for the first fragment is
    rejected, the resolution ends with that rejection, which is neither an
    accepted candidate nor the error of an exhausted hierarchy. *)
Lemma C7_rejected_fetch_aborts :
  ~ only_exhaustion_is_terminal always_rejects "SW1A 0AA" (idle tt).
Proof.
  unfold only_exhaustion_is_terminal.
  replace (fst (fetchPostcodeBoundary always_rejects "SW1A 0AA" (idle tt)))
    with (@Throw NominatimResult (FetchRejection "Failed to fetch"))
    by reflexivity.
  intros [H|H]; discriminate H.
Qed.

(** The run behind it: one request, for the most specific fragment, and
    none for the three broader ones. *)
Example rejected_fetch_run :
  fetchPostcodeBoundary always_rejects "SW1A 0AA" (idle tt)
  = (Throw (FetchRejection "Failed to fetch"),
     Build_World tt [EvFetch (apiUrl "SW1A 0AA")])
  /\ getPostcodesToTry "SW1A 0AA" = ["SW1A 0AA"; "SW1A"; "SW1"; "SW"].
Proof. split; reflexivity. Qed.

(** C7, amended: when the request for a fragment [pc] gets an HTTP response
    that is not OK, the search for [pc] yields no candidate and the
    resolution goes on: with the pause and the loop over the broader
    fragments [post] if there are any, and otherwise with the error of the
    exhausted hierarchy. *)
Theorem C7_http_failure_absorbed
  (State : Type) (collaborator : State -> string -> FetchOutcome * State)
  (postcode : string) (pre : list string) (pc : string) (post : list string)
  (w w1 : World State) (status : nat) (body : Body) (s : State) :
  entered postcode = true ->
  getPostcodesToTry postcode = pre ++ pc :: post ->
  rejected_prefix collaborator pre w = Some w1 ->
  collaborator (collab w1) (apiUrl pc) = (Responded false status body, s) ->
  searchNominatim collaborator pc w1
    = (Ok None, log (EvFetch (apiUrl pc)) w1 s)
  /\ fetchPostcodeBoundary collaborator postcode w
     = continue_with collaborator (getPostcodesToTry postcode) post
         (log (EvFetch (apiUrl pc)) w1 s).
Proof.
  intros He Hh Hpre Hc.
  pose proof (searchNominatim_not_ok _ _ _ _ _ _ _ Hc) as Hs.
  split; [assumption|].
  rewrite (fetchPostcodeBoundary_entered _ _ _ _ He).
  rewrite Hh at 1.
  unfold bind at 1. rewrite (for_loop_skip _ _ _ _ _ _ _ Hpre).
  rewrite (for_loop_none _ _ _ _ _ _ Hs).
  destruct post; reflexivity.
Qed.

Lemma C7_witness :
  fetchPostcodeBoundary always_503 "M1" (idle tt)
  = continue_with always_503 ["M1"; "M"] ["M"]
      (Build_World tt [EvFetch (apiUrl "M1")])
  /\ fetchPostcodeBoundary always_503 "M1" (idle tt)
     = (Throw (Error (no_boundary_message ["M1"; "M"])),
        Build_World tt [EvFetch (apiUrl "M1"); EvDelay 1000; EvFetch (apiUrl "M")]).
Proof.
  split; [|reflexivity].
  apply (C7_http_failure_absorbed unit always_503 "M1" [] "M1" ["M"]
           (idle tt) (idle tt) 503 BodyNull tt); reflexivity.
Defined.

(** When every request gets a response that is not OK, the resolution
    requests every fragment of the hierarchy in order and ends with the
    error of the exhausted hierarchy. *)
Lemma all_not_ok_exhausts
  (State : Type) (collaborator : State -> string -> FetchOutcome * State) :
  (forall s url, exists status body s',
      collaborator s url = (Responded false status body, s')) ->
  forall postcode w, entered postcode = true ->
  exists w',
    fetchPostcodeBoundary collaborator postcode w
    = (Throw (Error (no_boundary_message (getPostcodesToTry postcode))), w')
    /\ fetches (trace w')
       = fetches (trace w) ++ map apiUrl (getPostcodesToTry postcode).
Proof.
  intros Hall postcode w He.
  rewrite (fetchPostcodeBoundary_entered _ _ _ _ He).
  assert (Hloop : forall l w, exists w',
            for_loop collaborator l w = (Ok None, w')
            /\ fetches (trace w') = fetches (trace w) ++ map apiUrl l).
  { assert (Happ : forall a b, fetches (a ++ b) = fetches a ++ fetches b).
    { induction a as [|[url|ms] a IH]; intros b; simpl; rewrite ?IH; reflexivity. }
    induction l as [|pc rest IH]; intros w0.
    - exists w0. split; [reflexivity | now rewrite app_nil_r].
    - destruct (Hall (collab w0) (apiUrl pc)) as [status [body [s' Hc]]].
      rewrite (for_loop_none _ _ _ _ _ _ (searchNominatim_not_ok _ _ _ _ _ _ _ Hc)).
      destruct rest as [|pc' rest'].
      + eexists. split; [reflexivity|]. simpl. now rewrite Happ.
      + destruct (IH (log (EvDelay 1000) (log (EvFetch (apiUrl pc)) w0 s')
                          (collab (log (EvFetch (apiUrl pc)) w0 s'))))
          as [w' [E Ht]].
        exists w'. split; [assumption|]. rewrite Ht. simpl.
        rewrite !Happ. simpl. now rewrite app_nil_r, <- app_assoc. }
  destruct (Hloop (getPostcodesToTry postcode) w) as [w' [E Ht]].
  exists w'. unfold bind. rewrite E. split; [reflexivity | assumption].
Qed.

(** C9: for an input that is empty or consists of whitespace only,
    [fetchPostcodeBoundary] throws the error "Please enter a postcode." and
    leaves the world as it was: no request is issued. *)
Theorem C9_blank_input_rejected
  (State : Type) (collaborator : State -> string -> FetchOutcome * State)
  (postcode : string) (w : World State) :
  all_chars Js.is_ws postcode = true ->
  fetchPostcodeBoundary collaborator postcode w
    = (Throw (Error "Please enter a postcode."), w)
  /\ fetches (trace (snd (fetchPostcodeBoundary collaborator postcode w)))
     = fetches (trace w).
Proof.
  intros H. unfold fetchPostcodeBoundary.
  rewrite (trim_blank _ H). simpl. rewrite orb_true_r. split; reflexivity.
Qed.

Lemma C9_witness :
  all_chars Js.is_ws (String " " (String "009" (String " " EmptyString))) = true
  /\ fetchPostcodeBoundary ec1a_only
       (String " " (String "009" (String " " EmptyString))) (idle tt)
     = (Throw (Error "Please enter a postcode."), idle tt)
  /\ fetchPostcodeBoundary ec1a_only EmptyString (idle tt)
     = (Throw (Error "Please enter a postcode."), idle tt).
Proof.
  split; [reflexivity|]. split.
  - apply (C9_blank_input_rejected unit ec1a_only
             (String " " (String "009" (String " " EmptyString))) (idle tt)).
    reflexivity.
  - apply (C9_blank_input_rejected unit ec1a_only EmptyString (idle tt)).
    reflexivity.
Defined.

(** * Further properties of the generator *)

(** ** Prefixes *)

Lemma prefix_nil s : String.prefix EmptyString s = true.
Proof. destruct s; reflexivity. Qed.

Lemma prefix_cons c a s :
  String.prefix (String c a) (String c s) = String.prefix a s.
Proof. simpl. destruct (Ascii.ascii_dec c c); [reflexivity | congruence]. Qed.

Lemma prefix_refl s : String.prefix s s = true.
Proof.
  induction s as [|c r IH]; [reflexivity | now rewrite prefix_cons].
Qed.

Lemma prefix_trans a : forall b c,
  String.prefix a b = true -> String.prefix b c = true ->
  String.prefix a c = true.
Proof.
  induction a as [|x a IH]; intros b c Hab Hbc; [apply prefix_nil|].
  destruct b as [|y b]; simpl in Hab; [discriminate|].
  destruct c as [|z c]; simpl in Hbc; [discriminate|].
  destruct (Ascii.ascii_dec x y); [subst|discriminate].
  destruct (Ascii.ascii_dec y z); [subst|discriminate].
  rewrite prefix_cons. now apply (IH b c).
Qed.

Lemma prefix_length a : forall b,
  String.prefix a b = true -> String.length a <= String.length b.
Proof.
  induction a as [|x a IH]; intros b H; simpl; [lia|].
  destruct b as [|y b]; simpl in H; [discriminate|].
  destruct (Ascii.ascii_dec x y); [|discriminate].
  apply IH in H. simpl. lia.
Qed.

Lemma prefix_slice_0_m1 s : String.prefix (Js.slice_0_m1 s) s = true.
Proof.
  induction s as [|c r IH]; [reflexivity|].
  destruct r as [|c' r']; [reflexivity|].
  change (Js.slice_0_m1 (String c (String c' r')))
    with (String c (Js.slice_0_m1 (String c' r'))).
  now rewrite prefix_cons.
Qed.

Lemma prefix_drop_while_end p s :
  String.prefix (Js.drop_while_end p s) s = true.
Proof.
  induction s as [|c r IH]; [reflexivity|]. simpl Js.drop_while_end.
  destruct (Js.drop_while_end p r) as [|c' r'].
  - destruct (p c); [reflexivity|]. rewrite prefix_cons. apply prefix_nil.
  - now rewrite prefix_cons.
Qed.

Lemma prefix_split_space_0 s : String.prefix (Js.split_space_0 s) s = true.
Proof.
  induction s as [|c r IH]; [reflexivity|]. simpl Js.split_space_0.
  destruct (Js.is_space c); [reflexivity | now rewrite prefix_cons].
Qed.

Lemma Round_prefix current next :
  Round current (Some next) -> String.prefix next current = true.
Proof.
  inversion 1; subst.
  - apply prefix_slice_0_m1.
  - apply prefix_drop_while_end.
Qed.

(** A property [P] of the current string that every round hands on to the
    next one, and that implies [Q], makes [Q] hold of everything the loop
    pushes. *)
Lemma while_loop_Forall (P Q : string -> Prop) :
  (forall current next, Round current (Some next) -> P current -> P next) ->
  (forall x, P x -> Q x) ->
  forall fuel current hierarchy r,
    while_loop fuel current hierarchy = Some r ->
    P current -> Forall Q hierarchy -> Forall Q r.
Proof.
  intros Hstep HPQ. induction fuel as [|fuel IH];
    intros current hierarchy r H Hc Hh; [discriminate|].
  destruct (while_loop_unfold fuel current hierarchy) as [[next|] [Hr E]];
    rewrite E in H.
  - apply (IH next (hierarchy ++ [next])); [assumption | eauto |].
    apply Forall_app; split; [assumption|]. repeat constructor. eauto.
  - now inversion H; subst.
Qed.

Lemma fold_set_add_In x xs : forall seen,
  In x (fold_left Js.set_add xs seen) <-> In x seen \/ In x xs.
Proof.
  induction xs as [|y xs IH]; intros seen; simpl; [tauto|].
  rewrite IH.
  destruct (set_add_cases seen y) as [[Hin ->]|[_ ->]].
  - split; [tauto|]. intros [H|[<-|H]]; tauto.
  - rewrite in_app_iff. simpl. tauto.
Qed.

Lemma set_spread_In x xs : In x (Js.set_spread xs) <-> In x xs.
Proof.
  unfold Js.set_spread. rewrite fold_set_add_In. simpl. tauto.
Qed.

(** The pushed list is the result of the loop, and the generator is its
    [Set] spread. *)
Lemma pushed_hierarchy_loop postcode :
  while_loop (S (String.length postcode)) (outward postcode)
    (initial_hierarchy postcode) = Some (pushed_hierarchy postcode)
  /\ getPostcodesToTry postcode = Js.set_spread (pushed_hierarchy postcode).
Proof.
  destruct (getPostcodesToTry_loop postcode) as [h [Hh E]].
  specialize (Hh 0). rewrite Nat.add_0_r in Hh.
  unfold pushed_hierarchy, outward. rewrite Hh. now split.
Qed.

Lemma initial_hierarchy_cases postcode :
  (Js.includes_space (cleaned postcode) = true
   /\ initial_hierarchy postcode = [cleaned postcode; outward postcode])
  \/ (Js.includes_space (cleaned postcode) = false
      /\ outward postcode = cleaned postcode
      /\ initial_hierarchy postcode = [cleaned postcode]).
Proof.
  unfold initial_hierarchy, outward.
  destruct (Js.includes_space (cleaned postcode)) eqn:E; [left; now split|].
  right. split; [reflexivity|].
  assert (H : Js.split_space_0 (cleaned postcode) = cleaned postcode).
  { unfold Js.includes_space in E.
    induction (cleaned postcode) as [|c r IH]; simpl in *; [reflexivity|].
    apply orb_false_iff in E as [-> E]. f_equal. auto. }
  rewrite H. now split.
Qed.

Lemma pushed_hierarchy_prefixes postcode :
  Forall (fun x => x = cleaned postcode
                   \/ String.prefix x (outward postcode) = true)
         (pushed_hierarchy postcode).
Proof.
  destruct (pushed_hierarchy_loop postcode) as [Hloop _].
  apply (while_loop_Forall
           (fun x => String.prefix x (outward postcode) = true)
           (fun x => x = cleaned postcode
                     \/ String.prefix x (outward postcode) = true)) in Hloop;
    [assumption | | now right | apply prefix_refl |].
  - intros current next Hr Hc. apply Round_prefix in Hr.
    eapply prefix_trans; eassumption.
  - destruct (initial_hierarchy_cases postcode) as [[_ ->]|[_ [_ ->]]].
    + apply Forall_cons; [now left|].
      apply Forall_cons; [right; apply prefix_refl | apply Forall_nil].
    + apply Forall_cons; [now left | apply Forall_nil].
Qed.

(** X1: Every fragment of the hierarchy is the cleaned input itself or a
    prefix of its outward code. *)
Theorem fragments_are_prefixes (postcode fragment : string) :
  In fragment (getPostcodesToTry postcode) ->
  fragment = cleaned postcode
  \/ Js.startsWith (Js.split_space_0 (cleaned postcode)) fragment = true.
Proof.
  destruct (pushed_hierarchy_loop postcode) as [_ ->].
  rewrite set_spread_In. revert fragment. apply Forall_forall.
  apply pushed_hierarchy_prefixes.
Qed.

Lemma fragments_are_prefixes_witness :
  In "SW1" (getPostcodesToTry "sw1a 0aa")
  /\ ("SW1" = cleaned "sw1a 0aa"
      \/ Js.startsWith (Js.split_space_0 (cleaned "sw1a 0aa")) "SW1" = true).
Proof.
  assert (H : In "SW1" (getPostcodesToTry "sw1a 0aa")).
  { right. right. left. reflexivity. }
  split; [exact H|].
  exact (fragments_are_prefixes "sw1a 0aa" "SW1" H).
Defined.

(** ** Strict broadening *)

Lemma includes_space_split_shorter s :
  Js.includes_space s = true ->
  String.length (Js.split_space_0 s) < String.length s.
Proof.
  unfold Js.includes_space.
  induction s as [|c r IH]; simpl; [discriminate|].
  destruct (Js.is_space c); simpl; intros H; [lia|].
  apply IH in H. lia.
Qed.

Lemma while_loop_strict fuel : forall current hierarchy r,
  while_loop fuel current hierarchy = Some r ->
  StronglySorted shorter hierarchy ->
  Forall (fun x => not_longer x current) hierarchy ->
  StronglySorted shorter r.
Proof.
  induction fuel as [|fuel IH]; intros current hierarchy r H Hs Hc; [discriminate|].
  destruct (while_loop_unfold fuel current hierarchy) as [[next|] [Hr E]];
    rewrite E in H.
  - apply Round_shorter in Hr.
    apply (IH next (hierarchy ++ [next])); [assumption | |].
    + apply StronglySorted_snoc; [assumption|].
      eapply Forall_impl; [|exact Hc]. unfold not_longer, shorter. intros; lia.
    + apply Forall_app; split.
      * eapply Forall_impl; [|exact Hc]. unfold not_longer. intros; lia.
      * repeat constructor.
  - now inversion H; subst.
Qed.

Lemma pushed_hierarchy_strict postcode :
  StronglySorted shorter (pushed_hierarchy postcode).
Proof.
  destruct (pushed_hierarchy_loop postcode) as [Hloop _].
  apply while_loop_strict in Hloop; [assumption | |].
  - destruct (initial_hierarchy_cases postcode) as [[Hsp ->]|[_ [_ ->]]].
    + apply includes_space_split_shorter in Hsp.
      repeat constructor. exact Hsp.
    + repeat constructor.
  - apply initial_hierarchy_sorted.
Qed.

Lemma StronglySorted_shorter_NoDup l : StronglySorted shorter l -> NoDup l.
Proof.
  induction 1 as [|a l Hs IH Ha]; constructor; [|assumption].
  intros Hin. rewrite Forall_forall in Ha. specialize (Ha a Hin).
  unfold shorter in Ha. lia.
Qed.

Lemma fold_set_add_NoDup_id xs : forall seen,
  NoDup (seen ++ xs) -> fold_left Js.set_add xs seen = seen ++ xs.
Proof.
  induction xs as [|x xs IH]; intros seen Hnd; simpl.
  - now rewrite app_nil_r.
  - destruct (set_add_cases seen x) as [[Hin _]|[_ ->]].
    + apply NoDup_remove_2 in Hnd. exfalso. apply Hnd.
      apply in_or_app. now left.
    + rewrite IH; rewrite <- app_assoc; [reflexivity | assumption].
Qed.

(** The loop never pushes a string twice, so the [Set] spread at the end
    of [getPostcodesToTry] returns the pushed list unchanged. *)
Lemma set_spread_changes_nothing (postcode : string) :
  getPostcodesToTry postcode = pushed_hierarchy postcode.
Proof.
  destruct (pushed_hierarchy_loop postcode) as [_ ->].
  unfold Js.set_spread. rewrite fold_set_add_NoDup_id; [reflexivity|].
  apply StronglySorted_shorter_NoDup, pushed_hierarchy_strict.
Qed.

(** X2: Every fragment of the hierarchy is strictly shorter than the one
    before it. *)
Theorem hierarchy_strictly_shorter (postcode : string) :
  Sorted (fun previous element =>
            String.length element < String.length previous)
         (getPostcodesToTry postcode).
Proof.
  rewrite set_spread_changes_nothing.
  apply StronglySorted_Sorted. apply pushed_hierarchy_strict.
Qed.




(** ** Characters *)

Ltac all_ascii c :=
  destruct c as [[] [] [] [] [] [] [] []]; vm_compute; try reflexivity;
  try discriminate; auto.

Lemma is_space_upper_char c : Js.is_space (Js.upper_char c) = Js.is_space c.
Proof. all_ascii c. Qed.

Lemma upper_char_idem c : Js.upper_char (Js.upper_char c) = Js.upper_char c.
Proof. all_ascii c. Qed.

Lemma is_digit_not_upper c : Js.is_digit c = true -> Js.is_upper c = false.
Proof. all_ascii c. Qed.

Lemma is_ws_not_space c : Js.is_ws c = false -> Js.is_space c = false.
Proof. unfold Js.is_ws. intros H. now apply orb_false_iff in H. Qed.

Lemma toUpperCase_idem s : Js.toUpperCase (Js.toUpperCase s) = Js.toUpperCase s.
Proof.
  induction s as [|c r IH]; simpl; [reflexivity|].
  now rewrite upper_char_idem, IH.
Qed.

Lemma toUpperCase_collapse_spaces s : forall b,
  Js.toUpperCase (Js.collapse_spaces b s)
  = Js.collapse_spaces b (Js.toUpperCase s).
Proof.
  induction s as [|c r IH]; intros b; simpl; [reflexivity|].
  rewrite is_space_upper_char.
  destruct (Js.is_space c); [destruct b|]; simpl; now rewrite ?IH.
Qed.

Lemma toUpperCase_cleaned postcode :
  Js.toUpperCase (cleaned postcode) = cleaned postcode.
Proof.
  unfold cleaned, Js.replace_space_runs.
  now rewrite toUpperCase_collapse_spaces, toUpperCase_idem.
Qed.

Lemma toUpperCase_prefix x : forall y,
  String.prefix x y = true -> Js.toUpperCase y = y -> Js.toUpperCase x = x.
Proof.
  induction x as [|c x IH]; intros y Hp Hy; [reflexivity|].
  destruct y as [|d y]; simpl in Hp; [discriminate|].
  destruct (Ascii.ascii_dec c d); [subst|discriminate].
  simpl in Hy. injection Hy as Hd Hy'. simpl. rewrite Hd.
  f_equal. now apply (IH y).
Qed.

(** ** What the fragments look like *)

(** X4: Every fragment of the hierarchy is in upper case already: the
    [toUpperCase] that [scoreResult] applies to its query leaves it as it
    is. *)
Theorem fragments_are_uppercase (postcode fragment : string) :
  In fragment (getPostcodesToTry postcode) ->
  Js.toUpperCase fragment = fragment.
Proof.
  destruct (pushed_hierarchy_loop postcode) as [_ ->].
  rewrite set_spread_In. intros Hin.
  pose proof (pushed_hierarchy_prefixes postcode) as H.
  rewrite Forall_forall in H. destruct (H _ Hin) as [->|Hp].
  - apply toUpperCase_cleaned.
  - apply (toUpperCase_prefix _ _ Hp).
    apply (toUpperCase_prefix _ (cleaned postcode));
      [apply prefix_split_space_0 | apply toUpperCase_cleaned].
Qed.

Lemma fragments_are_uppercase_witness :
  In "EC1A" (getPostcodesToTry " ec1a  1bb")
  /\ Js.toUpperCase "EC1A" = "EC1A".
Proof.
  assert (H : In "EC1A" (getPostcodesToTry " ec1a  1bb")).
  { right. left. reflexivity. }
  split; [exact H|].
  exact (fragments_are_uppercase " ec1a  1bb" "EC1A" H).
Defined.

Lemma drop_while_head p s :
  match Js.drop_while p s with
  | EmptyString => True
  | String c _ => p c = false
  end.
Proof.
  induction s as [|c r IH]; simpl; [exact I|].
  destruct (p c) eqn:E; [assumption | simpl; assumption].
Qed.

Lemma drop_while_end_keeps_head p c r :
  p c = false -> exists r', Js.drop_while_end p (String c r) = String c r'.
Proof.
  intros H. simpl. destruct (Js.drop_while_end p r); rewrite ?H; eauto.
Qed.

Lemma trim_head s :
  match Js.trim s with
  | EmptyString => True
  | String c _ => Js.is_ws c = false
  end.
Proof.
  unfold Js.trim. pose proof (drop_while_head Js.is_ws s) as H.
  destruct (Js.drop_while Js.is_ws s) as [|c r]; [exact I|].
  destruct (drop_while_end_keeps_head Js.is_ws c r H) as [r' ->]. exact H.
Qed.

(** The outward code of an input that passes the guard is not empty. *)
Lemma outward_nonempty postcode :
  entered postcode = true -> 0 < String.length (outward postcode).
Proof.
  unfold entered. intros H. apply negb_true_iff, orb_false_iff in H as [_ H].
  apply Nat.eqb_neq in H.
  pose proof (trim_head postcode) as Hh.
  unfold outward, cleaned, Js.replace_space_runs.
  destruct (Js.trim postcode) as [|c r]; [simpl in H; lia|].
  apply is_ws_not_space in Hh. simpl.
  rewrite is_space_upper_char, Hh. simpl.
  rewrite is_space_upper_char, Hh. simpl. lia.
Qed.

(** X5: For an input that passes the guard of [fetchPostcodeBoundary], no
    fragment of the hierarchy is the empty string. *)
Theorem fragments_nonempty (postcode : string) :
  entered postcode = true ->
  Forall (fun fragment => fragment <> EmptyString) (getPostcodesToTry postcode).
Proof.
  intros He. rewrite set_spread_changes_nothing.
  destruct (pushed_hierarchy_loop postcode) as [Hloop _].
  pose proof (outward_nonempty postcode He) as Ho.
  apply (while_loop_Forall
           (fun x => 0 < String.length x)
           (fun x => x <> EmptyString)) in Hloop;
    [assumption | | | assumption |].
  - intros current next Hr _. inversion Hr; subst; [|assumption].
    rewrite length_slice_0_m1. lia.
  - intros x Hx ->. simpl in Hx. lia.
  - assert (Hc : cleaned postcode <> EmptyString).
    { intros E. pose proof (length_split_space_0 (cleaned postcode)) as Hl.
      fold (outward postcode) in Hl. rewrite E in Hl. simpl in Hl. lia. }
    assert (Hn : outward postcode <> EmptyString).
    { intros E. rewrite E in Ho. simpl in Ho. lia. }
    destruct (initial_hierarchy_cases postcode) as [[_ ->]|[_ [_ ->]]];
      repeat constructor; assumption.
Qed.

Lemma fragments_nonempty_witness :
  entered " m1 " = true
  /\ Forall (fun fragment => fragment <> EmptyString) (getPostcodesToTry " m1 ").
Proof.
  split; [reflexivity|].
  apply (fragments_nonempty " m1 "). reflexivity.
Defined.

(** ** Where the broadening stops *)

Lemma ends_with_class_exists p s :
  Js.ends_with_class p s = true -> Js.exists_char p s = true.
Proof.
  unfold Js.ends_with_class.
  induction s as [|c r IH]; simpl; [discriminate|].
  destruct r as [|c' r']; [intros ->; reflexivity|].
  intros H. apply IH in H. rewrite H. apply orb_true_r.
Qed.

Lemma all_chars_last p s c :
  all_chars p s = true -> Js.last_char s = Some c -> p c = true.
Proof.
  induction s as [|d r IH]; simpl; [discriminate|].
  intros H. apply andb_true_iff in H as [Hd Hr].
  destruct r as [|c' r']; [intros [= <-]; assumption | now apply IH].
Qed.

Lemma all_chars_drop_while_end p s :
  all_chars p s = true -> Js.drop_while_end p s = EmptyString.
Proof.
  induction s as [|c r IH]; simpl; [reflexivity|].
  intros H. apply andb_true_iff in H as [Hc Hr].
  now rewrite (IH Hr), Hc.
Qed.

(** With no digit in the current string, or nothing but digits, the loop
    exits at once. *)
Lemma while_loop_stops fuel current hierarchy :
  Js.exists_char Js.is_digit current = false
  \/ all_chars Js.is_digit current = true ->
  while_loop (S fuel) current hierarchy = Some hierarchy.
Proof.
  intros H.
  destruct (while_loop_unfold fuel current hierarchy) as [[next|] [Hr ->]];
    [|reflexivity].
  exfalso. destruct H as [H|H]; inversion Hr; subst.
  - congruence.
  - match goal with
    | Hd : Js.ends_with_class Js.is_digit current = true |- _ =>
        apply ends_with_class_exists in Hd; congruence
    end.
  - match goal with
    | Hu : Js.ends_with_class Js.is_upper current = true |- _ =>
        unfold Js.ends_with_class in Hu;
        destruct (Js.last_char current) as [c|] eqn:El; [|discriminate];
        apply (all_chars_last _ _ _ H), is_digit_not_upper in El; congruence
    end.
  - match goal with
    | Hl : 0 < String.length (Js.strip_trailing_digits current) |- _ =>
        unfold Js.strip_trailing_digits in Hl;
        rewrite (all_chars_drop_while_end _ _ H) in Hl; simpl in Hl; lia
    end.
Qed.

(** X6: An outward code without any digit (a bare area such as SW), or made of
    digits only, is not broadened: the hierarchy is the cleaned input,
    followed by the outward code when the input has an inward part. *)
Theorem no_broadening_without_letter_digit_pattern (postcode : string) :
  Js.exists_char Js.is_digit (Js.split_space_0 (cleaned postcode)) = false
  \/ all_chars Js.is_digit (Js.split_space_0 (cleaned postcode)) = true ->
  getPostcodesToTry postcode
  = if Js.includes_space (cleaned postcode)
    then [cleaned postcode; Js.split_space_0 (cleaned postcode)]
    else [cleaned postcode].
Proof.
  intros H. rewrite set_spread_changes_nothing.
  unfold pushed_hierarchy, outward. rewrite (while_loop_stops _ _ _ H).
  destruct (initial_hierarchy_cases postcode) as [[-> ->]|[-> [_ ->]]];
    reflexivity.
Qed.

Lemma no_broadening_without_letter_digit_pattern_witness :
  getPostcodesToTry " sw " = ["SW"]
  /\ getPostcodesToTry "12345 6" = ["12345 6"; "12345"].
Proof.
  split.
  - apply (no_broadening_without_letter_digit_pattern " sw ").
    left. reflexivity.
  - apply (no_broadening_without_letter_digit_pattern "12345 6").
    right. reflexivity.
Defined.

Lemma drop_while_end_app_all p d : forall a,
  all_chars p d = true ->
  Js.drop_while_end p (a ++ d)%string = Js.drop_while_end p a.
Proof.
  intros a Hd. induction a as [|c a IH]; simpl.
  - now apply all_chars_drop_while_end.
  - now rewrite IH.
Qed.

Lemma drop_while_end_none p a :
  Js.exists_char p a = false -> Js.drop_while_end p a = a.
Proof.
  induction a as [|c r IH]; simpl; [reflexivity|].
  intros H. apply orb_false_iff in H as [Hc Hr].
  rewrite (IH Hr). destruct r; [now rewrite Hc | reflexivity].
Qed.

Lemma length_app a b :
  String.length (a ++ b)%string = String.length a + String.length b.
Proof. induction a; simpl; congruence. Qed.

Lemma last_char_app a d c r :
  d = String c r -> Js.last_char (a ++ d)%string = Js.last_char d.
Proof.
  intros ->. induction a as [|x a IH]; [reflexivity|].
  change (String x a ++ String c r)%string with (String x (a ++ String c r)).
  simpl Js.last_char at 1.
  destruct (a ++ String c r)%string eqn:E; [|exact IH].
  destruct a; discriminate.
Qed.

Lemma last_char_some s :
  s <> EmptyString -> exists l, Js.last_char s = Some l.
Proof.
  induction s as [|c r IH]; [congruence|]. intros _.
  destruct r as [|c' r']; [simpl; eauto|].
  destruct IH as [l Hl]; [discriminate|]. exists l. exact Hl.
Qed.

(** One round on an area followed by digits goes to the area. *)
Lemma while_loop_area_digits fuel area digits hierarchy :
  Js.exists_char Js.is_digit area = false ->
  area <> EmptyString -> digits <> EmptyString ->
  all_chars Js.is_digit digits = true ->
  while_loop (S (S fuel)) (area ++ digits)%string hierarchy
  = Some (hierarchy ++ [area]).
Proof.
  intros Ha Hne Hdne Hd.
  assert (Hstrip : Js.strip_trailing_digits (area ++ digits)%string = area).
  { unfold Js.strip_trailing_digits.
    now rewrite drop_while_end_app_all, drop_while_end_none. }
  assert (Hdl : 0 < String.length digits)
    by (destruct digits; [congruence | simpl; lia]).
  assert (Hal : 0 < String.length area)
    by (destruct area; [congruence | simpl; lia]).
  assert (Hlast : exists l, Js.last_char (area ++ digits)%string = Some l
                            /\ Js.is_digit l = true).
  { destruct (last_char_some digits Hdne) as [l Hl]. exists l.
    split; [|now apply (all_chars_last _ _ _ Hd)].
    destruct digits as [|c r]; [congruence|].
    now rewrite (last_char_app area _ c r eq_refl). }
  destruct Hlast as [l [Hl Hdig]].
  assert (Hlen : 1 < String.length (area ++ digits)%string).
  { rewrite length_app. lia. }
  assert (Hneq : String.eqb area (area ++ digits)%string = false).
  { apply String.eqb_neq. intros E.
    apply (f_equal String.length) in E. rewrite length_app in E. lia. }
  change (while_loop (S (S fuel)) (area ++ digits)%string hierarchy)
    with (if 1 <? String.length (area ++ digits)%string then
            if Js.ends_with_class Js.is_upper (area ++ digits)%string
               && Js.exists_char Js.is_digit (area ++ digits)%string
            then while_loop (S fuel) (Js.slice_0_m1 (area ++ digits)%string)
                   (hierarchy ++ [Js.slice_0_m1 (area ++ digits)%string])
            else if Js.ends_with_class Js.is_digit (area ++ digits)%string then
              if (0 <? String.length (Js.strip_trailing_digits (area ++ digits)%string))
                 && negb (String.eqb (Js.strip_trailing_digits (area ++ digits)%string)
                                     (area ++ digits)%string)
              then while_loop (S fuel) (Js.strip_trailing_digits (area ++ digits)%string)
                     (hierarchy ++ [Js.strip_trailing_digits (area ++ digits)%string])
              else Some hierarchy
            else Some hierarchy
          else Some hierarchy).
  apply Nat.ltb_lt in Hlen. rewrite Hlen.
  unfold Js.ends_with_class. rewrite Hl, (is_digit_not_upper _ Hdig), Hdig.
  rewrite Hstrip, Hneq. simpl andb.
  apply Nat.ltb_lt in Hal. rewrite Hal. simpl andb. cbv iota.
  apply while_loop_stops. now left.
Qed.

(** X7: A district code made of an area without digits followed by digits
    (SW1, SE21, M1) is broadened in one step to its area, and no
    further. *)
Theorem district_broadens_to_area (postcode area digits : string) :
  Js.split_space_0 (cleaned postcode) = (area ++ digits)%string ->
  Js.exists_char Js.is_digit area = false ->
  area <> EmptyString -> digits <> EmptyString ->
  all_chars Js.is_digit digits = true ->
  getPostcodesToTry postcode
  = if Js.includes_space (cleaned postcode)
    then [cleaned postcode; (area ++ digits)%string; area]
    else [cleaned postcode; area].
Proof.
  intros Ho Ha Hne Hdne Hd. rewrite set_spread_changes_nothing.
  unfold pushed_hierarchy, outward. rewrite Ho.
  assert (Hfuel : exists k, String.length postcode = S k).
  { pose proof (length_cleaned postcode) as Hc.
    pose proof (length_split_space_0 (cleaned postcode)) as Hs.
    rewrite Ho, length_app in Hs.
    destruct area; [congruence|]. simpl in Hs.
    exists (String.length postcode - 1). lia. }
  destruct Hfuel as [k ->].
  rewrite (while_loop_area_digits k area digits _ Ha Hne Hdne Hd).
  destruct (initial_hierarchy_cases postcode) as [[-> ->]|[-> [E ->]]];
    unfold outward in *; rewrite ?Ho; [reflexivity|].
  rewrite <- E, Ho. reflexivity.
Qed.

Lemma district_broadens_to_area_witness :
  getPostcodesToTry "se21 8aa" = ["SE21 8AA"; "SE21"; "SE"]
  /\ getPostcodesToTry "m1" = ["M1"; "M"].
Proof.
  split.
  - apply (district_broadens_to_area "se21 8aa" "SE" "21");
      [reflexivity | reflexivity | discriminate | discriminate | reflexivity].
  - apply (district_broadens_to_area "m1" "M" "1");
      [reflexivity | reflexivity | discriminate | discriminate | reflexivity].
Defined.

Lemma slice_0_m1_snoc x l :
  Js.slice_0_m1 (x ++ String l EmptyString)%string = x.
Proof.
  induction x as [|c x IH]; [reflexivity|].
  change (String c x ++ String l EmptyString)%string
    with (String c (x ++ String l EmptyString)).
  simpl Js.slice_0_m1.
  destruct (x ++ String l EmptyString)%string eqn:E;
    [destruct x; discriminate|].
  now rewrite IH.
Qed.

Lemma last_char_snoc x l :
  Js.last_char (x ++ String l EmptyString)%string = Some l.
Proof.
  destruct x as [|c x]; [reflexivity|].
  now rewrite (last_char_app (String c x) _ l EmptyString eq_refl).
Qed.

Lemma exists_char_app p a b :
  Js.exists_char p (a ++ b)%string
  = Js.exists_char p a || Js.exists_char p b.
Proof.
  induction a as [|c a IH]; simpl; [reflexivity|].
  now rewrite IH, orb_assoc.
Qed.

Lemma all_chars_exists p s :
  s <> EmptyString -> all_chars p s = true -> Js.exists_char p s = true.
Proof.
  destruct s as [|c r]; [congruence|]. simpl. intros _ H.
  apply andb_true_iff in H as [-> _]. reflexivity.
Qed.

(** X8: A district code with a letter suffix (SW1A, EC1A) is broadened to the
    district without the letter, then to the area, and no further. *)
Theorem suffixed_district_broadens_twice
  (postcode area digits : string) (letter : ascii) :
  Js.split_space_0 (cleaned postcode)
    = (area ++ digits ++ String letter EmptyString)%string ->
  Js.exists_char Js.is_digit area = false ->
  area <> EmptyString -> digits <> EmptyString ->
  all_chars Js.is_digit digits = true ->
  Js.is_upper letter = true ->
  getPostcodesToTry postcode
  = if Js.includes_space (cleaned postcode)
    then [cleaned postcode;
          (area ++ digits ++ String letter EmptyString)%string;
          (area ++ digits)%string; area]
    else [cleaned postcode; (area ++ digits)%string; area].
Proof.
  intros Ho Ha Hne Hdne Hd Hl. rewrite set_spread_changes_nothing.
  unfold pushed_hierarchy, outward. rewrite Ho.
  assert (Hal : 0 < String.length area)
    by (destruct area; [congruence | simpl; lia]).
  assert (Hdl : 0 < String.length digits)
    by (destruct digits; [congruence | simpl; lia]).
  assert (Hfuel : exists k, String.length postcode = S (S k)).
  { pose proof (length_cleaned postcode) as Hc.
    pose proof (length_split_space_0 (cleaned postcode)) as Hs.
    rewrite Ho, !length_app in Hs. simpl in Hs.
    exists (String.length postcode - 2). lia. }
  destruct Hfuel as [k ->].
  set (full := (area ++ digits ++ String letter EmptyString)%string) in *.
  assert (Hfull : full = ((area ++ digits) ++ String letter EmptyString)%string).
  { unfold full. clear. induction area as [|c a IH]; simpl; [reflexivity|].
    now rewrite IH. }
  assert (Hstep : forall h, while_loop (S (S (S k))) full h
                  = while_loop (S (S k)) (area ++ digits)%string
                      (h ++ [(area ++ digits)%string])).
  { intros h.
    change (while_loop (S (S (S k))) full h)
      with (if 1 <? String.length full then
              if Js.ends_with_class Js.is_upper full
                 && Js.exists_char Js.is_digit full
              then while_loop (S (S k)) (Js.slice_0_m1 full)
                     (h ++ [Js.slice_0_m1 full])
              else if Js.ends_with_class Js.is_digit full then
                if (0 <? String.length (Js.strip_trailing_digits full))
                   && negb (String.eqb (Js.strip_trailing_digits full) full)
                then while_loop (S (S k)) (Js.strip_trailing_digits full)
                       (h ++ [Js.strip_trailing_digits full])
                else Some h
              else Some h
            else Some h).
    assert (Hlen : (1 <? String.length full) = true).
    { apply Nat.ltb_lt. rewrite Hfull, !length_app. simpl. lia. }
    rewrite Hlen. unfold Js.ends_with_class.
    rewrite Hfull at 1. rewrite last_char_snoc, Hl.
    rewrite Hfull at 1. rewrite !exists_char_app.
    rewrite (all_chars_exists _ _ Hdne Hd), orb_true_r. simpl.
    now rewrite Hfull, slice_0_m1_snoc. }
  rewrite Hstep.
  rewrite (while_loop_area_digits k area digits _ Ha Hne Hdne Hd).
  destruct (initial_hierarchy_cases postcode) as [[-> ->]|[-> [E ->]]];
    unfold outward in *; rewrite ?Ho; [reflexivity|].
  rewrite <- E, Ho. reflexivity.
Qed.

Lemma suffixed_district_broadens_twice_witness :
  getPostcodesToTry "ec1a 1bb" = ["EC1A 1BB"; "EC1A"; "EC1"; "EC"]
  /\ getPostcodesToTry "W1A" = ["W1A"; "W1"; "W"].
Proof.
  split.
  - apply (suffixed_district_broadens_twice "ec1a 1bb" "EC" "1" "A");
      [reflexivity | reflexivity | discriminate | discriminate
      | reflexivity | reflexivity].
  - apply (suffixed_district_broadens_twice "W1A" "W" "1" "A");
      [reflexivity | reflexivity | discriminate | discriminate
      | reflexivity | reflexivity].
Defined.

(** ** Normalisation *)

Lemma getPostcodesToTry_fuel_cleaned fuel a b :
  cleaned a = cleaned b ->
  getPostcodesToTry_fuel fuel a = getPostcodesToTry_fuel fuel b.
Proof. intros E. unfold getPostcodesToTry_fuel. now rewrite E. Qed.

(** Two inputs with the same cleaned form (the same up to case, surrounding
    whitespace and the number of spaces in a run) have the same
    hierarchy. *)
Theorem hierarchy_depends_on_cleaned_input (a b : string) :
  cleaned a = cleaned b -> getPostcodesToTry a = getPostcodesToTry b.
Proof.
  intros E.
  pose proof (getPostcodesToTry_fuel_total a (String.length b)) as Ha.
  pose proof (getPostcodesToTry_fuel_total b (String.length a)) as Hb.
  rewrite (getPostcodesToTry_fuel_cleaned _ a b E) in Ha.
  replace (S (String.length a) + String.length b)
    with (S (String.length b) + String.length a) in Ha by lia.
  congruence.
Qed.

Lemma hierarchy_depends_on_cleaned_input_witness :
  cleaned "sw1a 0aa" = cleaned "  SW1a    0AA "
  /\ getPostcodesToTry "sw1a 0aa" = getPostcodesToTry "  SW1a    0AA ".
Proof.
  split; [reflexivity|].
  apply (hierarchy_depends_on_cleaned_input "sw1a 0aa" "  SW1a    0AA ").
  reflexivity.
Defined.

Lemma is_ws_upper_char c : Js.is_ws (Js.upper_char c) = Js.is_ws c.
Proof. all_ascii c. Qed.

Lemma last_char_cons c r :
  r <> EmptyString -> Js.last_char (String c r) = Js.last_char r.
Proof. destruct r; [congruence | reflexivity]. Qed.

Lemma drop_while_end_last p s :
  match Js.last_char (Js.drop_while_end p s) with
  | Some l => p l = false
  | None => True
  end.
Proof.
  induction s as [|c r IH]; simpl; [exact I|].
  destruct (Js.drop_while_end p r) as [|c' r'] eqn:E.
  - destruct (p c) eqn:Hc; simpl; [exact I | exact Hc].
  - rewrite last_char_cons; [exact IH | discriminate].
Qed.

Lemma drop_while_end_fixed p s l :
  Js.last_char s = Some l -> p l = false -> Js.drop_while_end p s = s.
Proof.
  induction s as [|c r IH]; [discriminate|].
  destruct r as [|c' r'].
  - simpl. intros [= ->] ->. reflexivity.
  - rewrite last_char_cons by discriminate. intros Hl Hp.
    change (Js.drop_while_end p (String c (String c' r')))
      with (match Js.drop_while_end p (String c' r') with
            | EmptyString => if p c then EmptyString else String c EmptyString
            | r0 => String c r0
            end).
    now rewrite (IH Hl Hp).
Qed.

Lemma last_char_toUpperCase s :
  Js.last_char (Js.toUpperCase s) = option_map Js.upper_char (Js.last_char s).
Proof.
  induction s as [|c r IH]; [reflexivity|].
  destruct r as [|c' r']; [reflexivity|].
  change (Js.toUpperCase (String c (String c' r')))
    with (String (Js.upper_char c) (Js.toUpperCase (String c' r'))).
  rewrite (last_char_cons (Js.upper_char c) (Js.toUpperCase (String c' r')))
    by (simpl; discriminate).
  rewrite (last_char_cons c (String c' r')) by discriminate. exact IH.
Qed.

Lemma last_char_collapse_spaces s l : forall b,
  Js.last_char s = Some l -> Js.is_space l = false ->
  Js.last_char (Js.collapse_spaces b s) = Some l.
Proof.
  induction s as [|c r IH]; intros b Hl Hs; [discriminate|].
  destruct r as [|c' r'].
  - simpl in Hl. injection Hl as ->. simpl. now rewrite Hs.
  - rewrite last_char_cons in Hl by discriminate.
    assert (Hne : forall b', Js.collapse_spaces b' (String c' r') <> EmptyString).
    { intros b' E. specialize (IH b' Hl Hs). rewrite E in IH. discriminate. }
    change (Js.collapse_spaces b (String c (String c' r')))
      with (if Js.is_space c
            then if b then Js.collapse_spaces true (String c' r')
                 else String " " (Js.collapse_spaces true (String c' r'))
            else String c (Js.collapse_spaces false (String c' r'))).
    destruct (Js.is_space c); [destruct b|];
      rewrite ?last_char_cons by apply Hne; now apply IH.
Qed.

Lemma collapse_spaces_idem s :
  (forall b, Js.collapse_spaces false (Js.collapse_spaces b s)
             = Js.collapse_spaces b s)
  /\ Js.collapse_spaces true (Js.collapse_spaces true s)
     = Js.collapse_spaces true s.
Proof.
  induction s as [|c r [IHa IHb]]; [split; [intros b|]; reflexivity|].
  split; [intros b|]; simpl.
  - destruct (Js.is_space c) eqn:E; [destruct b|]; simpl; rewrite ?E;
      [apply IHa | now rewrite IHb | now rewrite IHa].
  - destruct (Js.is_space c) eqn:E; simpl; rewrite ?E;
      [assumption | now rewrite IHa].
Qed.

(** X9: Cleaning is idempotent: the cleaned input, which is the first fragment
    of the hierarchy, is left unchanged by trimming, uppercasing and the
    replacement of runs of spaces. *)
Theorem cleaned_idempotent (postcode : string) :
  Js.replace_space_runs
    (Js.toUpperCase
       (Js.trim (Js.replace_space_runs (Js.toUpperCase (Js.trim postcode)))))
  = Js.replace_space_runs (Js.toUpperCase (Js.trim postcode)).
Proof.
  fold (cleaned postcode).
  assert (Htrim : Js.trim (cleaned postcode) = cleaned postcode).
  { unfold cleaned, Js.replace_space_runs.
    pose proof (trim_head postcode) as Hhead.
    pose proof (drop_while_end_last Js.is_ws (Js.drop_while Js.is_ws postcode))
      as Hlast.
    fold (Js.trim postcode) in Hlast.
    destruct (Js.trim postcode) as [|c r] eqn:Et; [reflexivity|].
    destruct (Js.last_char (String c r)) as [l|] eqn:El;
      [|destruct (last_char_some (String c r)) as [l' Hl'];
        [discriminate | congruence]].
    set (s := Js.collapse_spaces false (Js.toUpperCase (String c r))).
    assert (Hs_last : Js.last_char s = Some (Js.upper_char l)).
    { apply last_char_collapse_spaces.
      - now rewrite last_char_toUpperCase, El.
      - rewrite is_space_upper_char. now apply is_ws_not_space. }
    assert (Hs_head : exists r', s = String (Js.upper_char c) r').
    { unfold s. simpl. rewrite is_space_upper_char.
      rewrite (is_ws_not_space _ Hhead). eauto. }
    destruct Hs_head as [r' Hs]. unfold Js.trim. rewrite Hs.
    simpl Js.drop_while. rewrite is_ws_upper_char, Hhead.
    rewrite <- Hs. apply (drop_while_end_fixed _ _ _ Hs_last).
    now rewrite is_ws_upper_char. }
  rewrite Htrim, toUpperCase_cleaned.
  unfold cleaned, Js.replace_space_runs.
  apply (proj1 (collapse_spaces_idem _) false).
Qed.

(** * Further properties of the scorer *)

Lemma penalized_not_postal_code r :
  is_penalized_boundary r = true -> is_postal_code_boundary r = false.
Proof.
  unfold is_penalized_boundary, is_postal_code_boundary.
  intros H. apply andb_true_iff in H as [-> H]. simpl.
  destruct (type r =? "postal_code")%string eqn:E; [|reflexivity].
  apply String.eqb_eq in E. rewrite E in H. discriminate H.
Qed.

(** The score as the sum of its five terms. *)
Lemma scoreResult_terms r query :
  (scoreResult r query ==
   (if is_postal_code_boundary r then 100 else 0)
   + (if label_starts_with_query r query then 80 else 0)
   + (if address_postcode_startsWith r (Js.toUpperCase query) then 50
      else if Js.includes (Js.toUpperCase (display_name r)) (Js.toUpperCase query)
           then 20 else 0)
   + importance_or_0 r * 10
   - (if is_penalized_boundary r then 60 else 0))%Q.
Proof.
  unfold scoreResult, is_postal_code_boundary, is_penalized_boundary.
  destruct ((class r =? "boundary")%string && (type r =? "postal_code")%string);
    destruct (label_starts_with_query r query);
    destruct (address_postcode_startsWith r (Js.toUpperCase query));
    destruct (Js.includes (Js.toUpperCase (display_name r)) (Js.toUpperCase query));
    destruct ((class r =? "boundary")%string
              && existsb (String.eqb (type r)) penalized_types); lra.
Qed.

(** With an importance between 0 and 1 every score lies between -60 and
    240. *)
Theorem score_range (r : NominatimResult) (query : string) :
  (0 <= importance_or_0 r)%Q -> (importance_or_0 r <= 1)%Q ->
  (-60 <= scoreResult r query)%Q /\ (scoreResult r query <= 240)%Q.
Proof.
  intros H0 H1. rewrite scoreResult_terms.
  destruct (is_penalized_boundary r) eqn:Ep.
  - rewrite (penalized_not_postal_code r Ep).
    destruct (label_starts_with_query r query);
      destruct (address_postcode_startsWith r (Js.toUpperCase query));
      destruct (Js.includes (Js.toUpperCase (display_name r))
                            (Js.toUpperCase query)); split; lra.
  - destruct (is_postal_code_boundary r);
      destruct (label_starts_with_query r query);
      destruct (address_postcode_startsWith r (Js.toUpperCase query));
      destruct (Js.includes (Js.toUpperCase (display_name r))
                            (Js.toUpperCase query)); split; lra.
Qed.

Lemma score_range_witness :
  (-60 <= scoreResult westminster_shape "SW1")%Q
  /\ (scoreResult westminster_shape "SW1" <= 240)%Q.
Proof.
  apply (score_range westminster_shape "SW1"); vm_compute; discriminate.
Defined.

(** X10: A candidate that is not a postal-code boundary, whose label does not
    contain the query and whose structured postcode does not start with
    it, scores at most ten times its importance: below the threshold for
    every importance under 5. *)
Theorem unrelated_candidate_below_threshold
  (r : NominatimResult) (query : string) :
  is_postal_code_boundary r = false ->
  Js.includes (Js.toUpperCase (display_name r)) (Js.toUpperCase query) = false ->
  address_postcode_startsWith r (Js.toUpperCase query) = false ->
  (importance_or_0 r < 5)%Q ->
  (scoreResult r query <= importance_or_0 r * 10)%Q
  /\ (scoreResult r query < MINIMUM_CONFIDENCE_SCORE)%Q.
Proof.
  intros Hg Hi Ha Himp. unfold MINIMUM_CONFIDENCE_SCORE.
  rewrite scoreResult_terms, Hg, Hi, Ha.
  destruct (label_starts_with_query r query) eqn:Ep.
  - apply label_prefix_includes in Ep. congruence.
  - destruct (is_penalized_boundary r); split; lra.
Qed.

Lemma unrelated_candidate_below_threshold_witness :
  (scoreResult london_place "SW1" <= importance_or_0 london_place * 10)%Q
  /\ (scoreResult london_place "SW1" < MINIMUM_CONFIDENCE_SCORE)%Q.
Proof.
  apply (unrelated_candidate_below_threshold london_place "SW1");
    [reflexivity | reflexivity | reflexivity | vm_compute; reflexivity].
Defined.



(** X12: With importances between 0 and 1, a postal-code boundary scores
    strictly higher than a boundary of a penalized type, whatever the
    labels, the structured postcodes and the queries. *)
Theorem postal_code_outranks_penalized
  (gold other : NominatimResult) (query query' : string) :
  is_postal_code_boundary gold = true ->
  is_penalized_boundary other = true ->
  (0 <= importance_or_0 gold)%Q ->
  (importance_or_0 other <= 1)%Q ->
  (scoreResult other query' < scoreResult gold query)%Q.
Proof.
  intros Hg Hp H0 H1.
  assert (Hgp : is_penalized_boundary gold = false).
  { destruct (is_penalized_boundary gold) eqn:E; [|reflexivity].
    apply penalized_not_postal_code in E. congruence. }
  rewrite !scoreResult_terms, Hg, Hp, Hgp, (penalized_not_postal_code other Hp).
  destruct (label_starts_with_query gold query);
    destruct (address_postcode_startsWith gold (Js.toUpperCase query));
    destruct (Js.includes (Js.toUpperCase (display_name gold))
                          (Js.toUpperCase query));
    destruct (label_starts_with_query other query');
    destruct (address_postcode_startsWith other (Js.toUpperCase query'));
    destruct (Js.includes (Js.toUpperCase (display_name other))
                          (Js.toUpperCase query')); lra.
Qed.

Lemma postal_code_outranks_penalized_witness :
  (scoreResult sw1_administrative "SW1" < scoreResult ec1a_postal_code "EC1A")%Q.
Proof.
  apply (postal_code_outranks_penalized ec1a_postal_code sw1_administrative
           "EC1A" "SW1");
    [reflexivity | reflexivity | vm_compute; discriminate
    | vm_compute; discriminate].
Defined.

(** * Further properties of the selection *)

Lemma sort_desc_nil l : sort_desc l = [] -> l = [].
Proof.
  destruct l as [|x l]; [reflexivity|]. intros E.
  assert (Hin : In x (sort_desc (x :: l))) by (apply sort_desc_In; now left).
  rewrite E in Hin. destruct Hin.
Qed.

Lemma pick_Some_inv data query r :
  pick data query = Some r ->
  exists best others,
    scoredResults data query = best :: others
    /\ result best = r /\ (MINIMUM_CONFIDENCE_SCORE <= score best)%Q.
Proof.
  unfold pick. destruct (scoredResults data query) as [|best others];
    [discriminate|].
  destruct (Qle_bool MINIMUM_CONFIDENCE_SCORE (score best)) eqn:E;
    [|discriminate].
  intros [= <-]. exists best, others. repeat split. now apply Qle_bool_iff.
Qed.

Lemma pick_None_inv data query :
  pick data query = None ->
  forall r, In r data -> has_shape r = true ->
    (scoreResult r query < MINIMUM_CONFIDENCE_SCORE)%Q.
Proof.
  unfold pick. destruct (scoredResults data query) as [|best others] eqn:Es.
  - intros _ r Hin Hs. exfalso.
    unfold scoredResults in Es. apply sort_desc_nil, map_eq_nil in Es.
    assert (Hf : In r (filter has_shape data)) by (apply filter_In; now split).
    rewrite Es in Hf. destruct Hf.
  - destruct (Qle_bool MINIMUM_CONFIDENCE_SCORE (score best)) eqn:E;
      [discriminate|].
    intros _ r Hin Hs.
    destruct (scoredResults_head _ _ _ _ Es) as [_ [_ [_ Htop]]].
    specialize (Htop r Hin Hs).
    destruct (Qlt_le_dec (score best) MINIMUM_CONFIDENCE_SCORE) as [Hlt|Hle].
    + eapply Qle_lt_trans; eassumption.
    + apply Qle_bool_iff in Hle. congruence.
Qed.

(** X13: What [searchNominatim] picks from a response is one of its records,
    carries a polygon or multipolygon geometry, scores at least the
    threshold, and no geometry-bearing record of the response scores
    higher. *)
Theorem picked_candidate_is_best_eligible
  (data : list NominatimResult) (query : string) (r : NominatimResult) :
  pick data query = Some r ->
  In r data
  /\ has_shape r = true
  /\ (MINIMUM_CONFIDENCE_SCORE <= scoreResult r query)%Q
  /\ forall r', In r' data -> has_shape r' = true ->
       (scoreResult r' query <= scoreResult r query)%Q.
Proof.
  intros H. destruct (pick_Some_inv _ _ _ H) as [best [others [Es [<- Hs]]]].
  destruct (scoredResults_head _ _ _ _ Es) as [Hin [Hsh [Hsc Htop]]].
  rewrite <- Hsc. repeat split; assumption.
Qed.

Lemma picked_candidate_is_best_eligible_witness :
  pick [westminster_no_shape; london_place; ec1a_postal_code] "EC1A"
  = Some ec1a_postal_code
  /\ has_shape ec1a_postal_code = true
  /\ (MINIMUM_CONFIDENCE_SCORE <= scoreResult ec1a_postal_code "EC1A")%Q.
Proof.
  assert (H : pick [westminster_no_shape; london_place; ec1a_postal_code] "EC1A"
              = Some ec1a_postal_code) by reflexivity.
  split; [exact H|].
  destruct (picked_candidate_is_best_eligible _ _ _ H) as [_ [Hs [Hc _]]].
  split; assumption.
Defined.

(** X14: A response yields no pick exactly when every geometry-bearing record
    of it scores below the threshold (in particular when it has none). *)
Theorem no_pick_iff_all_eligible_below_threshold
  (data : list NominatimResult) (query : string) :
  pick data query = None
  <-> forall r, In r data -> has_shape r = true ->
        (scoreResult r query < MINIMUM_CONFIDENCE_SCORE)%Q.
Proof.
  split; [apply pick_None_inv|].
  intros Hall. destruct (pick data query) as [r|] eqn:E; [|reflexivity].
  destruct (pick_Some_inv _ _ _ E) as [best [others [Es [<- Hs]]]].
  destruct (scoredResults_head _ _ _ _ Es) as [Hin [Hsh [Hsc _]]].
  specialize (Hall _ Hin Hsh). rewrite <- Hsc in Hall.
  exfalso. eapply Qlt_not_le; eassumption.
Qed.

(** X15: The order of the records in a response does not change whether one is
    picked, nor the score of the pick. *)
Theorem pick_score_is_order_independent
  (data data' : list NominatimResult) (query : string) :
  Permutation data data' ->
  match pick data query, pick data' query with
  | Some r, Some r' => (scoreResult r query == scoreResult r' query)%Q
  | None, None => True
  | _, _ => False
  end.
Proof.
  intros Hperm.
  assert (Hmixed : forall d d' r, Permutation d d' ->
            pick d query = Some r -> pick d' query = None -> False).
  { intros d d' r Hp Hs Hn.
    destruct (pick_Some_inv _ _ _ Hs) as [best [others [Es [<- Hb]]]].
    destruct (scoredResults_head _ _ _ _ Es) as [Hin [Hsh [Hsc _]]].
    pose proof (pick_None_inv _ _ Hn _ (Permutation_in _ Hp Hin) Hsh) as Hlt.
    rewrite <- Hsc in Hlt. eapply Qlt_not_le; eassumption. }
  destruct (pick data query) as [r|] eqn:E; destruct (pick data' query) as [r'|] eqn:E'.
  - destruct (pick_Some_inv _ _ _ E) as [b [o [Es [<- _]]]].
    destruct (pick_Some_inv _ _ _ E') as [b' [o' [Es' [<- _]]]].
    destruct (scoredResults_head _ _ _ _ Es) as [Hin [Hsh [Hsc Htop]]].
    destruct (scoredResults_head _ _ _ _ Es') as [Hin' [Hsh' [Hsc' Htop']]].
    apply Qle_antisym.
    + rewrite <- Hsc'. apply Htop'; [|assumption].
      now apply (Permutation_in _ Hperm).
    + rewrite <- Hsc. apply Htop; [|assumption].
      now apply (Permutation_in _ (Permutation_sym Hperm)).
  - exact (Hmixed _ _ _ Hperm E E').
  - exact (Hmixed _ _ _ (Permutation_sym Hperm) E' E).
  - exact I.
Qed.

Lemma pick_score_is_order_independent_witness :
  match pick [london_place; ec1a_postal_code] "EC1A",
        pick [ec1a_postal_code; london_place] "EC1A" with
  | Some r, Some r' => (scoreResult r "EC1A" == scoreResult r' "EC1A")%Q
  | None, None => True
  | _, _ => False
  end.
Proof.
  apply (pick_score_is_order_independent
           [london_place; ec1a_postal_code] [ec1a_postal_code; london_place]
           "EC1A").
  apply perm_swap.
Defined.

Lemma sort_desc_head_first l : forall best others,
  sort_desc l = best :: others ->
  exists before after,
    l = before ++ best :: after
    /\ Forall (fun c => (score c < score best)%Q) before.
Proof.
  induction l as [|x l IH]; intros best others H; [discriminate|].
  simpl in H. destruct (sort_desc l) as [|y s] eqn:E.
  - apply sort_desc_nil in E. subst l. simpl in H. inversion H; subst.
    exists [], []. split; [reflexivity | constructor].
  - destruct (IH y s eq_refl) as [before [after [-> Hb]]]. simpl in H.
    destruct (score_lt x y) eqn:Hlt; inversion H; subst.
    + exists (x :: before), after. split; [reflexivity|].
      constructor; [|assumption].
      unfold score_lt in Hlt. apply negb_true_iff in Hlt.
      destruct (Qlt_le_dec (score x) (score best)) as [Hl|Hl]; [assumption|].
      apply Qle_bool_iff in Hl. congruence.
    + exists [], (before ++ y :: after). split; [reflexivity | constructor].
Qed.

(** Among geometry-bearing records of equal top score the pick is the one
    that comes first in the response: every geometry-bearing record
    before the pick scores strictly less. *)
Theorem pick_is_first_of_the_best
  (data : list NominatimResult) (query : string) (r : NominatimResult) :
  pick data query = Some r ->
  exists before after,
    filter has_shape data = before ++ r :: after
    /\ Forall (fun c => (scoreResult c query < scoreResult r query)%Q) before.
Proof.
  intros H. destruct (pick_Some_inv _ _ _ H) as [best [others [Es [<- _]]]].
  unfold scoredResults in Es.
  destruct (sort_desc_head_first _ _ _ Es) as [before [after [Hm Hb]]].
  apply map_eq_app in Hm as [l1 [l2 [Hf [<- Hm2]]]].
  apply map_eq_cons in Hm2 as [a [tl [-> [<- _]]]].
  exists l1, tl. split; [assumption|]. simpl.
  rewrite Forall_map in Hb. exact Hb.
Qed.

Lemma pick_is_first_of_the_best_witness :
  pick [london_place; ec1a_postal_code; ec1a_postal_code] "EC1A"
  = Some ec1a_postal_code
  /\ exists before after,
       filter has_shape [london_place; ec1a_postal_code; ec1a_postal_code]
       = before ++ ec1a_postal_code :: after
       /\ Forall (fun c => (scoreResult c "EC1A"
                            < scoreResult ec1a_postal_code "EC1A")%Q) before.
Proof.
  assert (H : pick [london_place; ec1a_postal_code; ec1a_postal_code] "EC1A"
              = Some ec1a_postal_code) by reflexivity.
  split; [exact H|].
  exact (pick_is_first_of_the_best _ _ _ H).
Defined.

(** X16: A response that contains a postal-code boundary with geometry and a
    non-negative importance always yields a pick, and the pick scores at
    least 100. *)
Theorem postal_code_boundary_is_never_missed
  (data : list NominatimResult) (query : string) (gold : NominatimResult) :
  In gold data -> has_shape gold = true ->
  is_postal_code_boundary gold = true ->
  (0 <= importance_or_0 gold)%Q ->
  exists r, pick data query = Some r /\ (100 <= scoreResult r query)%Q.
Proof.
  intros Hin Hsh Hg Himp.
  assert (Hscore : (100 <= scoreResult gold query)%Q).
  { rewrite scoreResult_terms, Hg.
    destruct (is_penalized_boundary gold) eqn:Ep;
      [apply penalized_not_postal_code in Ep; congruence|].
    destruct (label_starts_with_query gold query);
      destruct (address_postcode_startsWith gold (Js.toUpperCase query));
      destruct (Js.includes (Js.toUpperCase (display_name gold))
                            (Js.toUpperCase query)); lra. }
  destruct (pick data query) as [r|] eqn:E.
  - exists r. split; [reflexivity|].
    destruct (pick_Some_inv _ _ _ E) as [best [others [Es [<- _]]]].
    destruct (scoredResults_head _ _ _ _ Es) as [_ [_ [Hsc Htop]]].
    rewrite <- Hsc. eapply Qle_trans; [exact Hscore | now apply Htop].
  - pose proof (pick_None_inv _ _ E _ Hin Hsh) as Hlt.
    unfold MINIMUM_CONFIDENCE_SCORE in Hlt. lra.
Qed.

Lemma postal_code_boundary_is_never_missed_witness :
  exists r, pick [sw1_administrative; ec1a_postal_code] "EC1A" = Some r
            /\ (100 <= scoreResult r "EC1A")%Q.
Proof.
  apply (postal_code_boundary_is_never_missed
           [sw1_administrative; ec1a_postal_code] "EC1A" ec1a_postal_code);
    [right; left; reflexivity | reflexivity | reflexivity
    | vm_compute; discriminate].
Defined.

(** X17: In the earlier revision every boundary with a non-negative importance
    scores at least 20, and a response that contains one with geometry
    always yields a pick: any positive score was accepted. *)
Theorem Legacy_any_boundary_is_accepted
  (data : list NominatimResult) (query : string) (b : NominatimResult) :
  In b data -> has_shape b = true ->
  class b = "boundary" ->
  (0 <= importance_or_0 b)%Q ->
  (20 <= Legacy.scoreResult b query)%Q
  /\ exists r, LegacySearch.pick data query = Some r.
Proof.
  intros Hin Hsh Hc Himp.
  assert (Hscore : (20 <= Legacy.scoreResult b query)%Q).
  { unfold Legacy.scoreResult. rewrite Hc. simpl.
    destruct (type b =? "postal_code")%string;
      destruct (label_starts_with_query b query);
      destruct (Js.includes (Js.toUpperCase (display_name b))
                            (Js.toUpperCase query)); lra. }
  split; [assumption|].
  unfold LegacySearch.pick, LegacySearch.scoredResults.
  set (scored := map (fun r => {| result := r;
                                  score := Legacy.scoreResult r query |})
                     (filter has_shape data)).
  assert (Hb : In {| result := b; score := Legacy.scoreResult b query |} scored).
  { apply in_map_iff. exists b. split; [reflexivity|].
    apply filter_In. now split. }
  destruct (sort_desc scored) as [|best others] eqn:Es.
  - apply sort_desc_nil in Es. rewrite Es in Hb. destruct Hb.
  - apply sort_desc_head_top in Es. rewrite Forall_forall in Es.
    specialize (Es _ Hb). simpl in Es.
    destruct (Qle_bool (score best) 0) eqn:E; [|simpl; eauto].
    apply Qle_bool_iff in E. lra.
Qed.

Lemma Legacy_any_boundary_is_accepted_witness :
  (20 <= Legacy.scoreResult westminster_shape "SW1")%Q
  /\ (exists r, LegacySearch.pick [westminster_shape] "SW1" = Some r)
  /\ pick [westminster_shape] "SW1" = None.
Proof.
  split; [|split; [|reflexivity]];
    apply (Legacy_any_boundary_is_accepted [westminster_shape] "SW1"
             westminster_shape);
    try reflexivity; try (left; reflexivity); vm_compute; discriminate.
Defined.

(** * Further properties of the orchestrator *)

Lemma getPostcodesToTry_head postcode :
  exists rest, getPostcodesToTry postcode = cleaned postcode :: rest.
Proof.
  destruct (getPostcodesToTry_loop postcode) as [h [Hh ->]].
  destruct (while_loop_extends _ _ _ _ (Hh 0)) as [added ->].
  destruct (initial_hierarchy_head postcode) as [rest ->].
  apply set_spread_head.
Qed.


Lemma paced_cons pc rest :
  rest <> [] ->
  paced (pc :: rest) = EvFetch (apiUrl pc) :: EvDelay 1000 :: paced rest.
Proof. destruct rest; [congruence | reflexivity]. Qed.


Section RunProperties.

Variable State : Type.
Variable collaborator : State -> string -> FetchOutcome * State.

(** What one search can end with: an accepted candidate with geometry and
    a score at or above the threshold, no candidate, or the rejection of
    [fetch] or of [json]; never an [Error] of the service's own. *)
Lemma searchNominatim_outcome pc w :
  match fst (searchNominatim collaborator pc w) with
  | Ok (Some r) =>
      has_shape r = true /\ (MINIMUM_CONFIDENCE_SCORE <= scoreResult r pc)%Q
  | Ok None => True
  | Throw e => forall m, e <> Error m
  end.
Proof.
  unfold searchNominatim, bind, fetch.
  destruct (collaborator (collab w) (apiUrl pc)) as [[reason|ok status body] s];
    simpl; [discriminate|].
  destruct ok; simpl; [|exact I].
  destruct body as [| |data]; simpl; [discriminate | exact I |].
  destruct (pick data pc) as [r|] eqn:E; [|exact I].
  destruct (pick_Some_inv _ _ _ E) as [best [others [Es [<- Hs]]]].
  destruct (scoredResults_head _ _ _ _ Es) as [_ [Hsh [Hsc _]]].
  rewrite <- Hsc. now split.
Qed.

(** The loop over a non-empty list: it searches the first [n] fragments,
    paced, and what it ends with tells where it stopped. *)
Lemma for_loop_run l : forall w,
  l <> [] ->
  exists n,
    1 <= n <= List.length l
    /\ trace (snd (for_loop collaborator l w)) = trace w ++ paced (firstn n l)
    /\ match fst (for_loop collaborator l w) with
       | Ok None => n = List.length l
       | Ok (Some r) =>
           has_shape r = true
           /\ exists pc, nth_error l (n - 1) = Some pc
                /\ (MINIMUM_CONFIDENCE_SCORE <= scoreResult r pc)%Q
       | Throw e => forall m, e <> Error m
       end.
Proof.
  induction l as [|pc rest IH]; intros w Hne; [congruence|].
  pose proof (searchNominatim_trace _ collaborator pc w) as Ht.
  pose proof (searchNominatim_outcome pc w) as Ho.
  destruct (searchNominatim collaborator pc w) as [[[r|]|e] w1] eqn:E;
    simpl in Ht, Ho.
  - rewrite (for_loop_some _ _ _ _ _ _ _ E). exists 1. simpl.
    split; [lia|]. split; [assumption|].
    destruct Ho as [Hs Hc]. split; [assumption|]. exists pc. now split.
  - rewrite (for_loop_none _ _ _ _ _ _ E).
    destruct rest as [|pc' rest'].
    + exists 1. simpl. split; [lia|]. now split.
    + destruct (IH (log (EvDelay 1000) w1 (collab w1))) as [n [Hn [Htr Hout]]];
        [discriminate|].
      exists (S n). split; [simpl in *; lia|]. split.
      * rewrite Htr. simpl trace. rewrite Ht.
        change (firstn (S n) (pc :: pc' :: rest'))
          with (pc :: firstn n (pc' :: rest')).
        rewrite paced_cons by (destruct n; [lia | discriminate]).
        now rewrite <- !app_assoc.
      * destruct (fst (for_loop collaborator (pc' :: rest')
                         (log (EvDelay 1000) w1 (collab w1)))) as [[r|]|e].
        -- destruct Hout as [Hs [pc0 [Hnth Hc]]]. split; [assumption|].
           exists pc0. split; [|assumption].
           replace (S n - 1) with (S (n - 1)) by lia. exact Hnth.
        -- simpl. now rewrite Hout.
        -- exact Hout.
  - rewrite (for_loop_throw _ _ _ _ _ _ _ E). exists 1. simpl.
    split; [lia|]. now split.
Qed.

End RunProperties.

(** X18: For an input that passes the guard, the run requests the first [n]
    fragments of the hierarchy, for some [n] from 1 to its length, in
    order, with a pause of one second between two requests and none after
    the last one; it does nothing else. *)
Theorem run_is_a_paced_prefix_of_the_hierarchy
  (State : Type) (collaborator : State -> string -> FetchOutcome * State)
  (postcode : string) (w : World State) :
  entered postcode = true ->
  exists n,
    1 <= n <= List.length (getPostcodesToTry postcode)
    /\ trace (snd (fetchPostcodeBoundary collaborator postcode w))
       = trace w ++ paced (firstn n (getPostcodesToTry postcode)).
Proof.
  intros He. rewrite (fetchPostcodeBoundary_entered _ _ _ _ He).
  destruct (getPostcodesToTry_head postcode) as [rest Hh].
  destruct (for_loop_run State collaborator (getPostcodesToTry postcode) w)
    as [n [Hn [Htr _]]]; [rewrite Hh; discriminate|].
  exists n. split; [assumption|]. unfold bind.
  destruct (for_loop collaborator (getPostcodesToTry postcode) w)
    as [[[r|]|e] w'] eqn:E; simpl in *; exact Htr.
Qed.

Lemma run_is_a_paced_prefix_of_the_hierarchy_witness :
  exists n,
    1 <= n <= List.length (getPostcodesToTry "EC1A 1BB")
    /\ trace (snd (fetchPostcodeBoundary ec1a_only "EC1A 1BB" (idle tt)))
       = trace (idle tt) ++ paced (firstn n (getPostcodesToTry "EC1A 1BB")).
Proof.
  apply (run_is_a_paced_prefix_of_the_hierarchy unit ec1a_only "EC1A 1BB"
           (idle tt)).
  reflexivity.
Defined.

(** X19: Whatever the collaborator does, a result that [fetchPostcodeBoundary]
    returns carries a polygon or multipolygon geometry and scores at least
    the threshold for one of the fragments of the hierarchy. *)
Theorem returned_result_has_geometry
  (State : Type) (collaborator : State -> string -> FetchOutcome * State)
  (postcode : string) (w : World State) (r : NominatimResult) :
  fst (fetchPostcodeBoundary collaborator postcode w) = Ok r ->
  has_shape r = true
  /\ exists pc, In pc (getPostcodesToTry postcode)
       /\ (MINIMUM_CONFIDENCE_SCORE <= scoreResult r pc)%Q.
Proof.
  destruct (entered postcode) eqn:He.
  - rewrite (fetchPostcodeBoundary_entered _ _ _ _ He).
    destruct (getPostcodesToTry_head postcode) as [rest Hh].
    destruct (for_loop_run State collaborator (getPostcodesToTry postcode) w)
      as [n [_ [_ Hout]]]; [rewrite Hh; discriminate|].
    unfold bind.
    destruct (for_loop collaborator (getPostcodesToTry postcode) w)
      as [[[r'|]|e] w'] eqn:E; simpl in *; try discriminate.
    intros [= <-]. destruct Hout as [Hs [pc [Hnth Hc]]].
    split; [assumption|]. exists pc. split; [|assumption].
    eapply nth_error_In; eassumption.
  - unfold entered in He. apply negb_false_iff in He.
    unfold fetchPostcodeBoundary. rewrite He. discriminate.
Qed.

Lemma returned_result_has_geometry_witness :
  has_shape ec1a_postal_code = true
  /\ exists pc, In pc (getPostcodesToTry "EC1A 1BB")
       /\ (MINIMUM_CONFIDENCE_SCORE <= scoreResult ec1a_postal_code pc)%Q.
Proof.
  apply (returned_result_has_geometry unit ec1a_only "EC1A 1BB" (idle tt)).
  reflexivity.
Defined.

(** X20: When [fetchPostcodeBoundary] throws an error of its own for an input
    that passes the guard, it is the error that names the fragments of the
    hierarchy, and every fragment has been requested, in order, paced. *)
Theorem own_error_means_exhaustion
  (State : Type) (collaborator : State -> string -> FetchOutcome * State)
  (postcode : string) (w : World State) (message : string) :
  entered postcode = true ->
  fst (fetchPostcodeBoundary collaborator postcode w) = Throw (Error message) ->
  message = no_boundary_message (getPostcodesToTry postcode)
  /\ trace (snd (fetchPostcodeBoundary collaborator postcode w))
     = trace w ++ paced (getPostcodesToTry postcode).
Proof.
  intros He. rewrite (fetchPostcodeBoundary_entered _ _ _ _ He).
  destruct (getPostcodesToTry_head postcode) as [rest Hh].
  destruct (for_loop_run State collaborator (getPostcodesToTry postcode) w)
    as [n [_ [Htr Hout]]]; [rewrite Hh; discriminate|].
  unfold bind.
  destruct (for_loop collaborator (getPostcodesToTry postcode) w)
    as [[[r'|]|e] w'] eqn:E; simpl in *; try discriminate.
  - intros [= <-]. split; [reflexivity|].
    rewrite Htr, Hout. now rewrite firstn_all.
  - intros [= ->]. exfalso. now apply (Hout message).
Qed.

Lemma own_error_means_exhaustion_witness :
  no_boundary_message ["M1"; "M"]
  = no_boundary_message (getPostcodesToTry "M1")
  /\ trace (snd (fetchPostcodeBoundary only_shapeless "M1" (idle tt)))
     = trace (idle tt) ++ paced (getPostcodesToTry "M1").
Proof.
  apply (own_error_means_exhaustion unit only_shapeless "M1" (idle tt));
    reflexivity.
Defined.


Lemma for_loop_all_none
  (State : Type) (collaborator : State -> string -> FetchOutcome * State) :
  (forall w pc, fst (searchNominatim collaborator pc w) = Ok None) ->
  forall l w, fst (for_loop collaborator l w) = Ok None.
Proof.
  intros Hall. induction l as [|pc rest IH]; intros w; [reflexivity|].
  specialize (Hall w pc).
  destruct (searchNominatim collaborator pc w) as [o w1] eqn:E.
  simpl in Hall. subst o. rewrite (for_loop_none _ _ _ _ _ _ E).
  destruct rest; [reflexivity | apply IH].
Qed.

(** X22: When no search yields a candidate (the responses are not OK, empty,
    without geometry or below the threshold), the resolution requests every
    fragment of the hierarchy, in order and paced, and then throws the
    error that names them all. *)
Theorem no_candidate_anywhere_exhausts_hierarchy
  (State : Type) (collaborator : State -> string -> FetchOutcome * State)
  (postcode : string) (w : World State) :
  (forall w' pc, fst (searchNominatim collaborator pc w') = Ok None) ->
  entered postcode = true ->
  fst (fetchPostcodeBoundary collaborator postcode w)
    = Throw (Error (no_boundary_message (getPostcodesToTry postcode)))
  /\ trace (snd (fetchPostcodeBoundary collaborator postcode w))
     = trace w ++ paced (getPostcodesToTry postcode).
Proof.
  intros Hall He. rewrite (fetchPostcodeBoundary_entered _ _ _ _ He).
  destruct (getPostcodesToTry_head postcode) as [rest Hh].
  destruct (for_loop_run State collaborator (getPostcodesToTry postcode) w)
    as [n [_ [Htr Hout]]]; [rewrite Hh; discriminate|].
  pose proof (for_loop_all_none State collaborator Hall
                (getPostcodesToTry postcode) w) as Hnone.
  unfold bind.
  destruct (for_loop collaborator (getPostcodesToTry postcode) w)
    as [o w'] eqn:E. simpl in *. subst o. simpl.
  split; [reflexivity|]. rewrite Htr, Hout. now rewrite firstn_all.
Qed.

Lemma no_candidate_anywhere_exhausts_hierarchy_witness :
  fst (fetchPostcodeBoundary only_shapeless "SW1A 0AA" (idle tt))
    = Throw (Error (no_boundary_message ["SW1A 0AA"; "SW1A"; "SW1"; "SW"]))
  /\ trace (snd (fetchPostcodeBoundary only_shapeless "SW1A 0AA" (idle tt)))
     = [EvFetch (apiUrl "SW1A 0AA"); EvDelay 1000;
        EvFetch (apiUrl "SW1A"); EvDelay 1000;
        EvFetch (apiUrl "SW1"); EvDelay 1000;
        EvFetch (apiUrl "SW")].
Proof.
  apply (no_candidate_anywhere_exhausts_hierarchy unit only_shapeless
           "SW1A 0AA" (idle tt)); reflexivity.
Defined.

Lemma searchNominatim_malformed
  (State : Type) (collaborator : State -> string -> FetchOutcome * State)
  pc w status s :
  collaborator (collab w) (apiUrl pc) = (Responded true status BodyMalformed, s) ->
  searchNominatim collaborator pc w
  = (Throw JsonRejection, log (EvFetch (apiUrl pc)) w s).
Proof.
  intros H. unfold searchNominatim, bind, fetch. now rewrite H.
Qed.

(** X23: When the request for a fragment is rejected, or its OK response has a
    body that is not JSON, after the fragments before it were searched
    without acceptance, the resolution ends with that rejection and
    requests nothing more. *)
Theorem failed_request_ends_resolution
  (State : Type) (collaborator : State -> string -> FetchOutcome * State)
  (postcode : string) (pre : list string) (pc : string) (post : list string)
  (w w1 : World State) (outcome : FetchOutcome) (s : State) (e : Thrown) :
  entered postcode = true ->
  getPostcodesToTry postcode = pre ++ pc :: post ->
  rejected_prefix collaborator pre w = Some w1 ->
  collaborator (collab w1) (apiUrl pc) = (outcome, s) ->
  thrown_by outcome = Some e ->
  fetchPostcodeBoundary collaborator postcode w
  = (Throw e,
     Build_World s (trace w ++ flat_map attempt_events pre
                            ++ [EvFetch (apiUrl pc)])).
Proof.
  intros He Hh Hpre Hc Ht.
  assert (Hs : searchNominatim collaborator pc w1
               = (Throw e, log (EvFetch (apiUrl pc)) w1 s)).
  { destruct outcome as [reason|[] status [| |data]]; simpl in Ht;
      try discriminate; injection Ht as <-.
    - now apply searchNominatim_rejected.
    - now apply (searchNominatim_malformed _ _ _ _ status). }
  rewrite (fetchPostcodeBoundary_entered _ _ _ _ He), Hh.
  unfold bind. rewrite (for_loop_skip _ _ _ _ _ _ _ Hpre).
  rewrite (for_loop_throw _ _ _ _ _ _ _ Hs).
  unfold log. rewrite (rejected_prefix_trace _ _ _ _ _ Hpre).
  now rewrite <- app_assoc.
Qed.

Lemma failed_request_ends_resolution_witness :
  fetchPostcodeBoundary second_rejects "SW1A 0AA" (idle 0)
  = (Throw (FetchRejection "Failed to fetch"),
     Build_World 2 [EvFetch (apiUrl "SW1A 0AA"); EvDelay 1000;
                    EvFetch (apiUrl "SW1A")])
  /\ fetchPostcodeBoundary always_malformed "M1" (idle tt)
     = (Throw JsonRejection, Build_World tt [EvFetch (apiUrl "M1")]).
Proof.
  split.
  - apply (failed_request_ends_resolution nat second_rejects "SW1A 0AA"
             ["SW1A 0AA"] "SW1A" ["SW1"; "SW"] (idle 0)
             (Build_World 1 [EvFetch (apiUrl "SW1A 0AA"); EvDelay 1000])
             (Rejected "Failed to fetch") 2); reflexivity.
  - apply (failed_request_ends_resolution unit always_malformed "M1"
             [] "M1" ["M"] (idle tt) (idle tt)
             (Responded true 200 BodyMalformed) tt); reflexivity.
Defined.

(** X24: When an OK response carries [null], or records none of which is
    picked, the resolution goes on as after a response that is not OK:
    with the pause and the broader fragments, or with the error of the
    exhausted hierarchy. *)
Theorem unacceptable_response_continues
  (State : Type) (collaborator : State -> string -> FetchOutcome * State)
  (postcode : string) (pre : list string) (pc : string) (post : list string)
  (w w1 : World State) (status : nat) (body : Body) (s : State) :
  entered postcode = true ->
  getPostcodesToTry postcode = pre ++ pc :: post ->
  rejected_prefix collaborator pre w = Some w1 ->
  collaborator (collab w1) (apiUrl pc) = (Responded true status body, s) ->
  match body with
  | BodyMalformed => False
  | BodyNull => True
  | BodyResults data => pick data pc = None
  end ->
  fetchPostcodeBoundary collaborator postcode w
  = continue_with collaborator (getPostcodesToTry postcode) post
      (log (EvFetch (apiUrl pc)) w1 s).
Proof.
  intros He Hh Hpre Hc Hb.
  assert (Hs : searchNominatim collaborator pc w1
               = (Ok None, log (EvFetch (apiUrl pc)) w1 s)).
  { unfold searchNominatim, bind, fetch. rewrite Hc. simpl.
    destruct body as [| |data]; [destruct Hb | reflexivity |].
    simpl. unfold ret. now rewrite Hb. }
  rewrite (fetchPostcodeBoundary_entered _ _ _ _ He).
  rewrite Hh at 1.
  unfold bind at 1. rewrite (for_loop_skip _ _ _ _ _ _ _ Hpre).
  rewrite (for_loop_none _ _ _ _ _ _ Hs).
  destruct post; reflexivity.
Qed.

Lemma unacceptable_response_continues_witness :
  fetchPostcodeBoundary ec1a_only "EC1A 1BB" (idle tt)
  = continue_with ec1a_only ["EC1A 1BB"; "EC1A"; "EC1"; "EC"]
      ["EC1A"; "EC1"; "EC"]
      (Build_World tt [EvFetch (apiUrl "EC1A 1BB")]).
Proof.
  apply (unacceptable_response_continues unit ec1a_only "EC1A 1BB"
           [] "EC1A 1BB" ["EC1A"; "EC1"; "EC"] (idle tt) (idle tt)
           200 (BodyResults []) tt); reflexivity.
Defined.

(** * Properties of the request encoding and of the error message *)

Lemma hex_digits_unreserved c :
  is_unreserved (hex_digit (Js.code c / 16)) = true
  /\ is_unreserved (hex_digit (Js.code c mod 16)) = true.
Proof. all_ascii c. Qed.

(** The encoded component consists of unreserved characters and percent
    signs only: no space, comma, quote, ampersand or equals sign reaches
    the URL. *)
Theorem encodeURIComponent_is_url_safe (s : string) :
  all_chars (fun c => is_unreserved c || Ascii.eqb c "%")
            (encodeURIComponent s) = true.
Proof.
  induction s as [|c r IH]; [reflexivity|]. cbn [encodeURIComponent].
  destruct (is_unreserved c) eqn:E; cbn [all_chars].
  - rewrite E, IH. reflexivity.
  - destruct (hex_digits_unreserved c) as [-> ->]. rewrite IH. reflexivity.
Qed.

Lemma percent_decode_char c :
  is_unreserved c = false ->
  ascii_of_nat (hex_value (hex_digit (Js.code c / 16)) * 16
                + hex_value (hex_digit (Js.code c mod 16))) = c.
Proof. all_ascii c. Qed.

Lemma unreserved_not_percent c :
  is_unreserved c = true -> Ascii.eqb c "%" = false.
Proof. all_ascii c. Qed.

Lemma percent_decode_encode s : percent_decode (encodeURIComponent s) = s.
Proof.
  induction s as [|c r IH]; [reflexivity|]. cbn [encodeURIComponent].
  destruct (is_unreserved c) eqn:E; cbn [percent_decode].
  - now rewrite (unreserved_not_percent c E), IH.
  - replace (Ascii.eqb "%" "%") with true by reflexivity.
    now rewrite (percent_decode_char c E), IH.
Qed.

Lemma append_cancel_l p : forall x y,
  (p ++ x)%string = (p ++ y)%string -> x = y.
Proof.
  induction p as [|c p IH]; intros x y H; [exact H|].
  simpl in H. injection H as H. now apply IH.
Qed.

Lemma append_cancel_r q : forall x y,
  (x ++ q)%string = (y ++ q)%string -> x = y.
Proof.
  induction x as [|c x IH]; intros y H.
  - destruct y as [|d y]; [reflexivity|]. exfalso.
    apply (f_equal String.length) in H. simpl in H.
    rewrite length_app in H. lia.
  - destruct y as [|d y].
    + exfalso. apply (f_equal String.length) in H. simpl in H.
      rewrite length_app in H. lia.
    + simpl in H. injection H as -> H. f_equal. now apply IH.
Qed.

(** Different fragments are requested with different URLs. *)
Theorem distinct_fragments_distinct_urls (a b : string) :
  a <> b -> apiUrl a <> apiUrl b.
Proof.
  unfold apiUrl. intros Hne H. apply Hne.
  apply append_cancel_l, append_cancel_r in H.
  apply (f_equal percent_decode) in H.
  rewrite !percent_decode_encode in H.
  now apply append_cancel_r in H.
Qed.

Lemma distinct_fragments_distinct_urls_witness :
  apiUrl "SW1A 0AA" <> apiUrl "SW1A".
Proof.
  apply (distinct_fragments_distinct_urls "SW1A 0AA" "SW1A"). discriminate.
Defined.

Lemma prefix_app_weaken x : forall a b,
  String.prefix x a = true -> String.prefix x (a ++ b)%string = true.
Proof.
  induction x as [|c x IH]; intros a b H; [apply prefix_nil|].
  destruct a as [|d a]; simpl in H; [discriminate|].
  destruct (Ascii.ascii_dec c d); [subst|discriminate].
  change (String d a ++ b)%string with (String d (a ++ b)).
  rewrite prefix_cons. now apply IH.
Qed.

Lemma includes_nil s : Js.includes s EmptyString = true.
Proof. destruct s; reflexivity. Qed.

Lemma includes_app_l a : forall b x,
  Js.includes a x = true -> Js.includes (a ++ b)%string x = true.
Proof.
  induction a as [|c a IH]; intros b x H.
  - simpl in H. rewrite orb_false_r in H.
    destruct x; [apply includes_nil | discriminate].
  - simpl in H. apply orb_true_iff in H as [H|H].
    + apply includes_of_prefix. now apply prefix_app_weaken.
    + change (String c a ++ b)%string with (String c (a ++ b)).
      simpl. rewrite (IH b x H). apply orb_true_r.
Qed.

Lemma includes_app_r a : forall b x,
  Js.includes b x = true -> Js.includes (a ++ b)%string x = true.
Proof.
  induction a as [|c a IH]; intros b x H; [exact H|].
  change (String c a ++ b)%string with (String c (a ++ b)).
  simpl. rewrite (IH b x H). apply orb_true_r.
Qed.

Lemma includes_refl s : Js.includes s s = true.
Proof. apply includes_of_prefix, prefix_refl. Qed.

Lemma join_includes sep l x : In x l -> Js.includes (Js.join sep l) x = true.
Proof.
  induction l as [|p rest IH]; intros Hin; [destruct Hin|].
  destruct rest as [|q rest'].
  - destruct Hin as [->|[]]. apply includes_refl.
  - change (Js.join sep (p :: q :: rest'))
      with (p ++ sep ++ Js.join sep (q :: rest'))%string.
    destruct Hin as [->|Hin].
    + apply includes_app_l, includes_refl.
    + apply includes_app_r, includes_app_r. now apply IH.
Qed.

(** X25: The message of the final error contains every fragment it is given,
    verbatim. *)
Theorem no_boundary_message_names_every_fragment
  (postcodesToTry : list string) (fragment : string) :
  In fragment postcodesToTry ->
  Js.includes (no_boundary_message postcodesToTry) fragment = true.
Proof.
  intros Hin. unfold no_boundary_message.
  apply includes_app_r, includes_app_r, includes_app_l.
  now apply join_includes.
Qed.

Lemma no_boundary_message_names_every_fragment_witness :
  Js.includes (no_boundary_message ["SW1A 0AA"; "SW1A"; "SW1"; "SW"]) "SW1A"
  = true.
Proof.
  apply (no_boundary_message_names_every_fragment
           ["SW1A 0AA"; "SW1A"; "SW1"; "SW"] "SW1A").
  right. left. reflexivity.
Defined.

(** * Properties of the search handler *)

Lemma fetchPostcodeBoundary_Ok_has_shape
  (State : Type) (collaborator : State -> string -> FetchOutcome * State)
  postcode w r :
  fst (fetchPostcodeBoundary collaborator postcode w) = Ok r ->
  has_shape r = true.
Proof.
  destruct (entered postcode) eqn:He.
  - rewrite (fetchPostcodeBoundary_entered _ _ _ _ He).
    destruct (getPostcodesToTry_head postcode) as [rest Hh].
    destruct (for_loop_run State collaborator (getPostcodesToTry postcode) w)
      as [n [_ [_ Hout]]]; [rewrite Hh; discriminate|].
    unfold bind.
    destruct (for_loop collaborator (getPostcodesToTry postcode) w)
      as [[[r'|]|e] w'] eqn:E; simpl in *; try discriminate.
    intros [= <-]. apply Hout.
  - unfold entered in He. apply negb_false_iff in He.
    unfold fetchPostcodeBoundary. rewrite He. discriminate.
Qed.

Lemma fetchPostcodeBoundary_blank
  (State : Type) (collaborator : State -> string -> FetchOutcome * State)
  postcode w :
  all_chars Js.is_ws postcode = true ->
  fetchPostcodeBoundary collaborator postcode w
  = (Throw (Error "Please enter a postcode."), w).
Proof.
  intros H. unfold fetchPostcodeBoundary.
  rewrite (trim_blank _ H). simpl. now rewrite orb_true_r.
Qed.

(** X26: When the handler has run for a non-empty input, the spinner is off,
    the initial overlay is gone, and the state holds either a result with
    polygon or multipolygon geometry and no error, or an error message and
    no result. *)
Theorem handleSearch_settles
  (State : Type) (collaborator : State -> string -> FetchOutcome * State)
  (json_message : string) (ui : App.UiState) (w : World State) :
  App.postcode ui <> EmptyString ->
  let ui' := fst (App.handleSearch collaborator json_message ui w) in
  App.isLoading ui' = false
  /\ App.isInitial ui' = false
  /\ App.postcode ui' = App.postcode ui
  /\ match App.geoJsonData ui', App.error ui' with
     | Some r, None => has_shape r = true
     | None, Some _ => True
     | _, _ => False
     end.
Proof.
  intros Hne. unfold App.handleSearch.
  destruct (String.length (App.postcode ui) =? 0) eqn:E.
  { apply Nat.eqb_eq in E. destruct (App.postcode ui); [congruence|].
    simpl in E. lia. }
  cbn [App.postcode App.setIsInitial App.setGeoJsonData App.setError
       App.setIsLoading].
  pose proof (fetchPostcodeBoundary_Ok_has_shape State collaborator
                (App.postcode ui) w) as Hshape.
  destruct (fetchPostcodeBoundary collaborator (App.postcode ui) w)
    as [[r|e] w'].
  - simpl. repeat split. now apply Hshape.
  - destruct e; simpl; repeat split.
Qed.

Lemma handleSearch_settles_witness :
  let ui' := fst (App.handleSearch ec1a_only "Unexpected token"
                    App.initial (idle tt)) in
  App.isLoading ui' = false
  /\ App.isInitial ui' = false
  /\ App.postcode ui' = App.postcode App.initial
  /\ match App.geoJsonData ui', App.error ui' with
     | Some r, None => has_shape r = true
     | None, Some _ => True
     | _, _ => False
     end.
Proof.
  apply (handleSearch_settles unit ec1a_only "Unexpected token"
           App.initial (idle tt)).
  discriminate.
Defined.

(** X27: For an input that is empty or whitespace only the handler issues no
    request.  The empty input is stopped by the handler itself, which shows
    its own message and leaves the previous result on the map; a
    whitespace-only input is stopped by the service, whose message is shown
    and the previous result is cleared. *)
Theorem handleSearch_missing_input
  (State : Type) (collaborator : State -> string -> FetchOutcome * State)
  (json_message : string) (ui : App.UiState) (w : World State) :
  all_chars Js.is_ws (App.postcode ui) = true ->
  let ui' := fst (App.handleSearch collaborator json_message ui w) in
  snd (App.handleSearch collaborator json_message ui w) = w
  /\ if String.length (App.postcode ui) =? 0
     then ui' = App.setError (Some "Please enter a UK postcode.") ui
     else App.error ui' = Some "Please enter a postcode."
          /\ App.geoJsonData ui' = None
          /\ App.isLoading ui' = false
          /\ App.isInitial ui' = false.
Proof.
  intros Hb. unfold App.handleSearch.
  destruct (String.length (App.postcode ui) =? 0) eqn:E.
  - simpl. split; reflexivity.
  - cbn [App.postcode App.setIsInitial App.setGeoJsonData App.setError
         App.setIsLoading].
    rewrite (fetchPostcodeBoundary_blank _ _ _ _ Hb). simpl.
    repeat split.
Qed.

Lemma handleSearch_missing_input_witness :
  let ui := {| App.postcode := "  ";
               App.geoJsonData := Some ec1a_postal_code;
               App.isLoading := false; App.error := None;
               App.isInitial := false |} in
  let ui' := fst (App.handleSearch ec1a_only "Unexpected token" ui (idle tt)) in
  snd (App.handleSearch ec1a_only "Unexpected token" ui (idle tt)) = idle tt
  /\ App.error ui' = Some "Please enter a postcode."
  /\ App.geoJsonData ui' = None.
Proof.
  intros ui ui'.
  destruct (handleSearch_missing_input unit ec1a_only "Unexpected token"
              ui (idle tt) eq_refl) as [Hw [He [Hg _]]].
  repeat split; assumption.
Defined.

(** * Properties of the service on boundary files *)

Example getPostcodeParts_samples :
  GeoService.getPostcodeParts " sw1a  0aa"
  = {| GeoService.area := "SW"; GeoService.district := "SW1A" |}
  /\ GeoService.getPostcodeParts "m1"
     = {| GeoService.area := "M"; GeoService.district := "M1" |}
  /\ GeoService.getPostcodeParts "12 ab"
     = {| GeoService.area := EmptyString; GeoService.district := "12" |}.
Proof. repeat split. Qed.

Lemma skip_line_none s :
  Js.exists_char GeoService.is_line_terminator s = false ->
  GeoService.skip_line s = EmptyString.
Proof.
  induction s as [|c r IH]; simpl; [reflexivity|].
  intros H. apply orb_false_iff in H as [-> H]. auto.
Qed.

Lemma remove_from_first_digit_split s :
  Js.exists_char GeoService.is_line_terminator s = false ->
  exists rest,
    s = (GeoService.remove_from_first_digit s ++ rest)%string
    /\ Js.exists_char Js.is_digit (GeoService.remove_from_first_digit s) = false
    /\ match rest with
       | EmptyString => True
       | String c _ => Js.is_digit c = true
       end.
Proof.
  induction s as [|c r IH]; simpl; intros H.
  - exists EmptyString. repeat split.
  - apply orb_false_iff in H as [Hc Hr].
    destruct (Js.is_digit c) eqn:Ed.
    + rewrite (skip_line_none r Hr). exists (String c r). repeat split.
      exact Ed.
    + destruct (IH Hr) as [rest [E [Hn Hrest]]].
      exists rest. simpl. rewrite Ed, Hn. repeat split; [|assumption].
      now rewrite <- E.
Qed.

(** X28: For a district without line breaks, the area that [getPostcodeParts]
    returns is the longest prefix of the district that has no digit. *)
Theorem area_is_longest_digit_free_prefix (postcode : string) :
  let parts := GeoService.getPostcodeParts postcode in
  Js.exists_char GeoService.is_line_terminator (GeoService.district parts)
    = false ->
  exists rest,
    GeoService.district parts = (GeoService.area parts ++ rest)%string
    /\ Js.exists_char Js.is_digit (GeoService.area parts) = false
    /\ match rest with
       | EmptyString => True
       | String c _ => Js.is_digit c = true
       end.
Proof.
  intros parts H. unfold parts in *. simpl in *.
  now apply remove_from_first_digit_split.
Qed.

Lemma area_is_longest_digit_free_prefix_witness :
  exists rest,
    GeoService.district (GeoService.getPostcodeParts "ec1a 1bb")
    = (GeoService.area (GeoService.getPostcodeParts "ec1a 1bb") ++ rest)%string
    /\ Js.exists_char Js.is_digit
         (GeoService.area (GeoService.getPostcodeParts "ec1a 1bb")) = false
    /\ match rest with
       | EmptyString => True
       | String c _ => Js.is_digit c = true
       end.
Proof.
  apply (area_is_longest_digit_free_prefix "ec1a 1bb"). reflexivity.
Defined.



(** X30: Whatever the file server does, the service requests at most one file,
    the one of the area, and a feature it returns is named after the
    district and carries an id that starts with the district. *)
Theorem one_request_and_the_named_feature
  (State : Type)
  (server : State -> string -> GeoService.FetchOutcome * State)
  (getTime : State -> nat) (postcode : string) (w : GeoService.World State) :
  let parts := GeoService.getPostcodeParts postcode in
  let run := GeoService.fetchPostcodeBoundary server getTime postcode w in
  (GeoService.requests (snd run) = GeoService.requests w
   \/ GeoService.requests (snd run)
      = GeoService.requests w
        ++ [GeoService.geoJsonUrl (GeoService.area parts)])
  /\ match fst run with
     | GeoService.Ok f =>
         GeoService.requests (snd run)
         = GeoService.requests w
           ++ [GeoService.geoJsonUrl (GeoService.area parts)]
         /\ exists p time,
              GeoService.properties f = Some p
              /\ GeoService.name p = Some (GeoService.district parts)
              /\ GeoService.id p
                 = Some (GeoService.district parts ++ "-"
                         ++ GeoService.decimal time)%string
     | GeoService.Throw _ => True
     end.
Proof.
  intros parts run. unfold run, GeoService.fetchPostcodeBoundary.
  cbv zeta. fold parts.
  set (d := GeoService.district parts). set (a := GeoService.area parts).
  clearbody d a. clear parts run.
  destruct ((String.length postcode =? 0)
            || (String.length (Js.trim postcode) =? 0)).
  { simpl. split; [left; reflexivity | exact I]. }
  destruct (String.length a =? 0).
  { simpl. split; [left; reflexivity | exact I]. }
  destruct (server (GeoService.collab w) (GeoService.geoJsonUrl a))
    as [[reason|ok status body] s].
  { simpl. split; [right; reflexivity | exact I]. }
  destruct ok; simpl.
  2:{ destruct (status =? 404); simpl; (split; [right; reflexivity | exact I]). }
  destruct body as [| |features]; simpl.
  { split; [right; reflexivity | exact I]. }
  { split; [right; reflexivity | exact I]. }
  destruct (find (GeoService.named d) features) as [feature|] eqn:Ef; simpl.
  2:{ split; [right; reflexivity | exact I]. }
  split; [right; reflexivity|]. split; [reflexivity|].
  apply find_some in Ef as [_ Hn]. unfold GeoService.named in Hn.
  unfold GeoService.set_id.
  destruct (GeoService.properties feature) as [p|]; [|discriminate].
  destruct (GeoService.name p) as [n|] eqn:En; [|discriminate].
  apply String.eqb_eq in Hn. subst n.
  eexists. exists (getTime s). simpl. repeat split.
Qed.

Example sw_files_run :
  GeoService.fetchPostcodeBoundary GeoService.sw_files (fun s => 4000 + s)
    "sw1a 0aa" (GeoService.Build_World 0 [])
  = (GeoService.Ok
       {| GeoService.properties :=
            Some {| GeoService.name := Some "SW1A";
                    GeoService.id := Some "SW1A-4001" |};
          GeoService.geometry := Some "MultiPolygon" |},
     GeoService.Build_World 1 [GeoService.geoJsonUrl "SW"]).
Proof. vm_compute. reflexivity. Qed.
